(** * spm_decode: the decode driver of sentencepiece (src/spm_decode_main.cc)

    A shallow embedding of [readFileToVector] and [main].  The driver is
    sequential code that talks to three collaborators that are not part of
    the file: the tokenization model ([sp.Load], [sp.Decode], ...), the
    line-oriented files of [filesystem.h] and the C/C++ runtime
    ([std::ifstream], [atoi]).  The collaborators are the fields of the
    record [World]; the driver itself is written in a small monad that
    records, in program order, every call that leaves the process and stops
    at the first fatal diagnostic. *)

From Stdlib Require Import ZArith List String Ascii Strings.Byte Bool Lia.
From stdpp Require Import base list.
Import ListNotations.

Local Open Scope string_scope.
Local Open Scope list_scope.
Local Open Scope Z_scope.

(** ** Diagnostics, events and the driver monad *)

(** What ends a run early: a failed [CHECK], a failed [CHECK_OK], a
    [LOG(FATAL)], and the ways the C++ runtime itself would stop or derail
    the run: calling an empty [std::function], using a [uint16_t] that a
    short [read] left unset, and the two exceptions of the constructor of
    [std::vector], which nothing in the driver catches:
    [std::length_error] for a length above its [max_size()] and
    [std::bad_alloc] when the memory for the elements is not there. *)
Inductive Diagnostic : Type :=
| CHECK_failed (expr : string)
| CHECK_OK_failed (expr : string)
| LOG_FATAL (msg : string)
| bad_function_call
| indeterminate_value
| length_error
| bad_alloc.

(** Which output parameter a [Decode] call fills: [&detok] (a string) or
    [&spt] (a SentencePieceText record). *)
Inductive DecodeTarget : Type := to_detok | to_spt.

(** Every call of the driver that leaves the process, as one event. *)
Inductive Event : Type :=
| Load_ (path : string)
| SetDecodeExtraOptions_ (opts : string)
| NewWritableFile_ (path : string)
| NewReadableFile_ (path : string)
| ReadLine_ (line : string)
| ifstream_ (path : string)
| cerr_ (msg : string)
| Decode_pieces_ (pieces : list string) (target : DecodeTarget)
| Decode_ids_ (ids : list Z) (target : DecodeTarget)
| WriteLine_ (text : string).

(** How a computation ends: it returns a value, or the process is
    terminated with a diagnostic on the error channel and a non-zero exit
    status. *)
Inductive Outcome (A : Type) : Type :=
| Returned (a : A)
| Aborted (d : Diagnostic).
Arguments Returned {A} a.
Arguments Aborted {A} d.

(** A computation: the events it performed, then how it ended. *)
Definition M (A : Type) : Type := (list Event * Outcome A)%type.

Definition ret {A} (a : A) : M A := ([], Returned a).

Definition bind {A B} (m : M A) (k : A -> M B) : M B :=
  match m with
  | (t, Returned a) => let (t', r) := k a in (t ++ t', r)
  | (t, Aborted d) => (t, Aborted d)
  end.

Definition emit (e : Event) : M unit := ([e], Returned tt).
Definition die {A} (d : Diagnostic) : M A := ([], Aborted d).

(** The monad structure, through stdpp's classes: [x ← m; k] and [m ;; k]
    are [bind]. *)
#[global] Instance M_ret : MRet M := @ret.
#[global] Instance M_bind : MBind M := fun A B k m => bind m k.

Definition trace {A} (m : M A) : list Event := fst m.
Definition outcome {A} (m : M A) : Outcome A := snd m.

(** Modelled from the spec: the macro [CHECK] is defined in common.h, which
    is not under src/.  The spec has a failed check be fatal: the process
    is terminated at once, with a diagnostic on the error channel and a
    non-zero status.  [expr] is the text of the condition. *)
Definition CHECK (cond : bool) (expr : string) : M unit :=
  if cond then ret tt else die (CHECK_failed expr).

(** ** Streams and the element loop of [readFileToVector] *)

(** An open [std::ifstream]: the bytes that it delivers and the get
    position. *)
Record ifstream : Type := { buf : list byte; gpos : nat }.

(** Seeking and [tellg()] as they work on a regular file, where the end is
    the size.  What [tellg()] reports elsewhere is in [OpenedFile]
    below. *)
Definition seekg_end (s : ifstream) : ifstream :=
  {| buf := buf s; gpos := List.length (buf s) |}.
Definition seekg_beg (s : ifstream) : ifstream :=
  {| buf := buf s; gpos := 0 |}.
Definition tellg (s : ifstream) : nat := gpos s.

(** What [std::ifstream] has opened.  [regular_file] is a regular file
    that memory can hold as a vector of [int]: [tellg()] after
    [seekg(0, end)] is its size, and the stream functions above model it.
    [other_file] is every other case.  A directory, a FIFO or a device
    opens as well, and a regular file can be larger than memory: [end_pos]
    is whatever [tellg()] reports after the seek, a size or not (-1 when
    the seek failed, the largest [long] for a directory on Linux),
    [allocates] tells whether a vector of the resulting length can be
    allocated, and [bytes] is what [read] delivers. *)
Inductive OpenedFile : Type :=
| regular_file (bytes : list byte)
| other_file (end_pos : Z) (allocates : bool) (bytes : list byte).

(** Conversions to [std::size_t] and to [std::streamsize], 64 bits each. *)
Definition to_size_t (z : Z) : Z := z mod 2 ^ 64.
Definition to_streamsize (z : Z) : Z := (z + 2 ^ 63) mod 2 ^ 64 - 2 ^ 63.

(** Line 51, [inFile.tellg() / sizeof(uint16_t)], on a position that the
    source does not check: the position is converted to the unsigned type
    of [sizeof], divided, and stored in a [std::streamsize]. *)
Definition numElements_of (end_pos : Z) : Z :=
  to_streamsize (to_size_t end_pos / 2).

(** [std::vector<int>::max_size()] where [std::size_t] has 64 bits. *)
Definition vector_max_size : Z := 2 ^ 61 - 1.

(** [inFile.read(p, n)]: the next [n] bytes; [None] when fewer than [n]
    remain, where the read fails and leaves the object at [p] unset. *)
Definition read (n : nat) (s : ifstream) : option (list byte * ifstream) :=
  let bs := take n (drop (gpos s) (buf s)) in
  if Nat.eqb (List.length bs) n
  then Some (bs, {| buf := buf s; gpos := (gpos s + n)%nat |})
  else None.

Definition sizeof_uint16_t : nat := 2.

Definition byte_val (b : byte) : Z := Z.of_N (Byte.to_N b).

(** The [uint16_t] whose object representation is the two bytes read into
    it, on the little-endian machines the tool is built for: low byte
    first. *)
Definition uint16_of_bytes (bs : list byte) : option Z :=
  match bs with
  | [b0; b1] => Some (Z.lor (byte_val b0) (Z.shiftl (byte_val b1) 8))
  | _ => None
  end.

(** [static_cast<int>(num16)]: every [uint16_t] value is an [int] value. *)
Definition static_cast_int (num16 : Z) : Z := num16.

(** The loop [for (i = 0; i < numElements; ++i)], with [k] iterations left
    to run from index [i]. *)
Fixpoint read_elements (k i : nat) (inFile : ifstream) (result : list Z)
  : M (list Z) :=
  match k with
  | O => ret result
  | S k' =>
      match read sizeof_uint16_t inFile with
      | Some (bs, inFile') =>
          match uint16_of_bytes bs with
          | Some num16 =>
              read_elements k' (S i) inFile'
                (<[i := static_cast_int num16]> result)
          | None => die indeterminate_value
          end
      | None => die indeterminate_value
      end
  end.

(** ** The collaborators *)

(** The flags of the ABSL_FLAG declarations, as [absl::GetFlag] returns
    them. *)
Record Flags : Type := {
  FLAGS_model : string;
  FLAGS_input : string;
  FLAGS_output : string;
  FLAGS_input_format : string;
  FLAGS_output_format : string;
  FLAGS_extra_options : string
}.

(** [sentencepiece::SentencePieceProcessor].  A call that returns a status
    is [None] when the status is not OK; [Load] and [SetDecodeExtraOptions]
    change the processor, the [Decode] overloads are const and fill
    [&detok] (the text) or [&spt] (a record the driver never reads, so only
    its status is kept). *)
Record Model : Type := {
  Processor : Type;
  sp_new : Processor;
  Load : Processor -> string -> option Processor;
  SetDecodeExtraOptions : Processor -> string -> option Processor;
  Decode_pieces : Processor -> list string -> option string;
  Decode_ids : Processor -> list Z -> option string;
  Decode_pieces_spt : Processor -> list string -> option unit;
  Decode_ids_spt : Processor -> list Z -> option unit
}.

(** The files the run can see.  [NewReadableFile] gives, when its status is
    OK, the lines that [ReadLine] then delivers one by one (the empty path
    is standard input); [NewWritableFile] gives the status of the output;
    [open_ifstream] gives what [std::ifstream] opened, if it could
    open the path. *)
Record FileSystem : Type := {
  NewReadableFile : string -> option (list string);
  NewWritableFile : string -> bool;
  open_ifstream : string -> option OpenedFile
}.

(** One run: the flags, [argv] as [ParseCommandLineFlags] leaves it (the
    program name, then the arguments that are not flags), the model and the
    files. *)
Record World : Type := {
  flags : Flags;
  argv : list string;
  model : Model;
  fs : FileSystem
}.

(** Modelled from the spec: the macro [CHECK_OK] is defined in common.h,
    which is not under src/.  The spec has a status that is not OK be
    fatal, like a failed [CHECK].  The call that gives the status may also
    yield a value, which a passed check hands on. *)
Definition CHECK_OK {A} (st : option A) (expr : string) : M A :=
  match st with
  | Some a => ret a
  | None => die (CHECK_OK_failed expr)
  end.

Definition status_of (ok : bool) : option unit :=
  if ok then Some tt else None.

(** Modelled from the spec: the macro [LOG] is defined in common.h, which
    is not under src/.  The spec has [LOG(FATAL) << msg] terminate the
    process with the diagnostic [msg] and a non-zero status. *)
Definition LOG_FATAL_ {A} (msg : string) : M A := die (LOG_FATAL msg).

Definition empty (s : string) : bool :=
  match s with
  | EmptyString => true
  | String _ _ => false
  end.

(** A range-based [for] whose body may end the run. *)
Fixpoint for_each {A} (l : list A) (body : A -> M unit) : M unit :=
  match l with
  | [] => ret tt
  | x :: l' => body x ;; for_each l' body
  end.

(** Calling a [std::function]: an empty one throws. *)
Definition call {A} (f : option (A -> M unit)) (a : A) : M unit :=
  match f with
  | Some g => g a
  | None => die bad_function_call
  end.

(** ** The binary id reader *)

(** Lines 39-66.  On a regular file the element count is half the size.
    In every other case the unchecked position of line 51 gives the count,
    and line 56 throws when that count is above the largest vector or when
    the vector cannot be allocated. *)
Definition readFileToVector (fsys : FileSystem) (filename : string)
  : M (list Z) :=
  emit (ifstream_ filename) ;;
  match open_ifstream fsys filename with
  | None =>
      emit (cerr_ ("Error: Unable to open the file: " ++ filename)%string) ;;
      ret []
  | Some (regular_file bytes) =>
      let inFile := {| buf := bytes; gpos := 0 |} in
      let inFile := seekg_end inFile in
      let numElements := (tellg inFile / sizeof_uint16_t)%nat in
      let inFile := seekg_beg inFile in
      let result := replicate numElements 0 in
      read_elements numElements 0 inFile result
  | Some (other_file end_pos allocates bytes) =>
      let inFile := {| buf := bytes; gpos := 0 |} in
      let numElements := numElements_of end_pos in
      if vector_max_size <? to_size_t numElements then die length_error
      else if negb allocates then die bad_alloc
      else
        let n := Z.to_nat (to_size_t numElements) in
        let result := replicate n 0 in
        read_elements n 0 inFile result
  end.

(** ** The C library's [atoi] *)

Definition isspace (c : ascii) : bool :=
  let n := nat_of_ascii c in
  Nat.eqb n 32 || (Nat.leb 9 n && Nat.leb n 13).

Definition isdigit (c : ascii) : bool :=
  let n := nat_of_ascii c in
  Nat.leb 48 n && Nat.leb n 57.

Definition digit_val (c : ascii) : Z := Z.of_nat (nat_of_ascii c) - 48.

Fixpoint skip_space (s : string) : string :=
  match s with
  | String c s' => if isspace c then skip_space s' else s
  | EmptyString => s
  end.

(** The value of the longest run of digits at the start of [s], continuing
    from [acc]; the scan stops at the first character that is not a digit. *)
Fixpoint digits_value (acc : Z) (s : string) : Z :=
  match s with
  | String c s' =>
      if isdigit c then digits_value (10 * acc + digit_val c) s' else acc
  | EmptyString => acc
  end.

Definition LONG_MAX : Z := 2 ^ 63 - 1.
Definition LONG_MIN : Z := - 2 ^ 63.

(** [strtol(nptr, NULL, 10)]: white space, an optional sign, then digits;
    0 when there is no digit; clamped to the range of [long]. *)
Definition strtol (nptr : string) : Z :=
  match skip_space nptr with
  | String c s =>
      if Ascii.eqb c "-" then Z.max LONG_MIN (- digits_value 0 s)
      else if Ascii.eqb c "+" then Z.min LONG_MAX (digits_value 0 s)
      else Z.min LONG_MAX (digits_value 0 (String c s))
  | EmptyString => 0
  end.

(** Conversion of a [long] to [int]: the low 32 bits, two's complement. *)
Definition long_to_int (z : Z) : Z := (z + 2 ^ 31) mod 2 ^ 32 - 2 ^ 31.

(** [atoi] belongs to the C library, not to the repository: ISO C defines
    it as [(int)strtol(nptr, NULL, 10)] for every value that fits an [int]
    and the C library of the Linux targets computes that expression for
    every input, with a [long] of 64 bits. *)
Definition atoi (nptr : string) : Z := long_to_int (strtol nptr).

(** ** The line tokenizer *)

(** Modelled from the spec: the scan behind [absl::StrSplit], which is not
    under src/ (see [StrSplit] below).  [cur] is the token being read. *)
Fixpoint split_scan (delim : ascii) (cur : string) (s : string)
  : list string :=
  match s with
  | String c s' =>
      if Ascii.eqb c delim
      then cur :: split_scan delim EmptyString s'
      else split_scan delim (cur ++ String c EmptyString)%string s'
  | EmptyString => if empty cur then [] else [cur]
  end.

(** Modelled from the spec: [absl::StrSplit] is declared in
    third_party/absl/strings/str_split.h, which is not under src/.  The
    spec has each line split on single-space boundaries into a token
    sequence, an empty line yielding the empty token sequence: every single
    space ends a token, and the characters after the last space are the
    last token when there are any.  The driver calls it with the one
    delimiter " ". *)
Definition StrSplit (line : string) (delim : ascii) : list string :=
  split_scan delim EmptyString line.

(** ** [main] *)

(** The loop [for (i = 1; i < argc; ++i) rest_args.push_back(argv[i])],
    with [k] iterations left to run from index [i]. *)
Fixpoint push_argv (k i : nat) (args rest_args : list string)
  : list string :=
  match k with
  | O => rest_args
  | S k' =>
      match args !! i with
      | Some a => push_argv k' (S i) args (rest_args ++ [a])
      | None => rest_args
      end
  end.

(** Lines 71-82: the input sources. *)
Definition rest_args (w : World) : list string :=
  let argc := List.length (argv w) in
  let rest_args :=
    if empty (FLAGS_input (flags w))
    then push_argv (argc - 1) 1 (argv w) []
    else [FLAGS_input (flags w)] in
  if Nat.eqb (List.length rest_args) 0
  then rest_args ++ [EmptyString]
  else rest_args.

(** The lambda [ToIds]. *)
Fixpoint ToIds (pieces : list string) : list Z :=
  match pieces with
  | [] => []
  | s :: pieces' => atoi s :: ToIds pieces'
  end.

Section Closures.

Variable w : World.
Variable sp : Processor (model w).

(** The bodies of the six lambdas of lines 108-152, by input format and
    the output parameter of [Decode]. *)
Definition process_piece_string (pieces : list string) : M unit :=
  emit (Decode_pieces_ pieces to_detok) ;;
  detok ← CHECK_OK (Decode_pieces (model w) sp pieces)
                   "sp.Decode(pieces, &detok)";
  emit (WriteLine_ detok).

Definition process_piece_proto (pieces : list string) : M unit :=
  emit (Decode_pieces_ pieces to_spt) ;;
  CHECK_OK (Decode_pieces_spt (model w) sp pieces)
           "sp.Decode(pieces, &spt)".

Definition process_map_string (ids : list Z) : M unit :=
  emit (Decode_ids_ ids to_detok) ;;
  detok ← CHECK_OK (Decode_ids (model w) sp ids) "sp.Decode(ids, &detok)";
  emit (WriteLine_ detok).

Definition process_map_proto (ids : list Z) : M unit :=
  emit (Decode_ids_ ids to_spt) ;;
  CHECK_OK (Decode_ids_spt (model w) sp ids) "sp.Decode(ids, &spt)".

Definition process_id_string (pieces : list string) : M unit :=
  let ids := ToIds pieces in
  emit (Decode_ids_ ids to_detok) ;;
  detok ← CHECK_OK (Decode_ids (model w) sp ids)
                   "sp.Decode(ToIds(pieces), &detok)";
  emit (WriteLine_ detok).

Definition process_id_proto (pieces : list string) : M unit :=
  let ids := ToIds pieces in
  emit (Decode_ids_ ids to_spt) ;;
  CHECK_OK (Decode_ids_spt (model w) sp ids)
           "sp.Decode(ToIds(pieces), &spt)".

(** The two [std::function] variables after lines 96-152: [process] and
    [process_int], each empty until a branch assigns it. *)
Definition Closures : Type :=
  (option (list string -> M unit) * option (list Z -> M unit))%type.

Definition unknown_output_format {A} : M A :=
  LOG_FATAL_ ("Unknown output format: "
              ++ FLAGS_output_format (flags w))%string.

Definition unknown_input_format {A} : M A :=
  LOG_FATAL_ ("Unknown input format: "
              ++ FLAGS_input_format (flags w))%string.

(** Lines 108-152. *)
Definition dispatch : M Closures :=
  let input_format := FLAGS_input_format (flags w) in
  let output_format := FLAGS_output_format (flags w) in
  if String.eqb input_format "piece" then
    if String.eqb output_format "string" then
      ret (Some process_piece_string, None)
    else if String.eqb output_format "proto" then
      ret (Some process_piece_proto, None)
    else unknown_output_format
  else if String.eqb input_format "map" then
    if String.eqb output_format "string" then
      ret (None, Some process_map_string)
    else if String.eqb output_format "proto" then
      ret (None, Some process_map_proto)
    else unknown_output_format
  else if String.eqb input_format "id" then
    if String.eqb output_format "string" then
      ret (Some process_id_string, None)
    else if String.eqb output_format "proto" then
      ret (Some process_id_proto, None)
    else unknown_output_format
  else unknown_input_format.

(** Lines 155-158: one file of the "map" loop. *)
Definition map_file (process_int : option (list Z -> M unit))
    (filename : string) : M unit :=
  ids ← readFileToVector (fs w) filename;
  call process_int ids.

(** Lines 163-166: one line of a text input. *)
Definition text_line (process : option (list string -> M unit))
    (line : string) : M unit :=
  emit (ReadLine_ line) ;;
  let pieces := StrSplit line " "%char in
  call process pieces.

(** Lines 160-167: one file of the text loop. *)
Definition text_file (process : option (list string -> M unit))
    (filename : string) : M unit :=
  emit (NewReadableFile_ filename) ;;
  lines ← CHECK_OK (NewReadableFile (fs w) filename) "input->status()";
  for_each lines (text_line process).

(** Lines 154-168. *)
Definition batch (c : Closures) : M unit :=
  let '(process, process_int) := c in
  if String.eqb (FLAGS_input_format (flags w)) "map"
  then for_each (rest_args w) (map_file process_int)
  else for_each (rest_args w) (text_file process).

End Closures.

(** Lines 84-92: the model and the output. *)
Definition startup (w : World) : M (Processor (model w)) :=
  CHECK (negb (empty (FLAGS_model (flags w))))
        "!absl::GetFlag(FLAGS_model).empty()" ;;
  emit (Load_ (FLAGS_model (flags w))) ;;
  sp ← CHECK_OK (Load (model w) (sp_new (model w)) (FLAGS_model (flags w)))
                "sp.Load(absl::GetFlag(FLAGS_model))";
  emit (SetDecodeExtraOptions_ (FLAGS_extra_options (flags w))) ;;
  sp ← CHECK_OK (SetDecodeExtraOptions (model w) sp
                   (FLAGS_extra_options (flags w)))
                "sp.SetDecodeExtraOptions(absl::GetFlag(FLAGS_extra_options))";
  emit (NewWritableFile_ (FLAGS_output (flags w))) ;;
  CHECK_OK (status_of (NewWritableFile (fs w) (FLAGS_output (flags w))))
           "output->status()" ;;
  ret sp.

(** [main].  The input sources ([rest_args], lines 71-82) are built first;
    building them performs no call, and the batch reads them. *)
Definition main (w : World) : M Z :=
  sp ← startup w;
  c ← dispatch w sp;
  batch w c ;;
  ret 0.

(** ** A small world to run the driver on *)

Module Demo.

(** A model with a four-piece vocabulary.  The processor is the
    vocabulary once loaded; ids outside the vocabulary and pieces that
    are not in it fail to decode. *)
Definition vocab : list string := ["<unk>"; "Hello"; "_world"; "!"].

Definition known (p : string) : bool :=
  existsb (String.eqb p) vocab.

Fixpoint decode_ids (v : list string) (ids : list Z) : option string :=
  match ids with
  | [] => Some EmptyString
  | i :: ids' =>
      if (i <? 0) then None else
      match v !! Z.to_nat i, decode_ids v ids' with
      | Some p, Some rest => Some (p ++ rest)%string
      | _, _ => None
      end
  end.

Fixpoint decode_pieces (pieces : list string) : option string :=
  match pieces with
  | [] => Some EmptyString
  | p :: pieces' =>
      match decode_pieces pieces' with
      | Some rest => if known p then Some (p ++ rest)%string else None
      | None => None
      end
  end.

Definition discard (r : option string) : option unit :=
  match r with Some _ => Some tt | None => None end.

Definition demo_model : Model := {|
  Processor := list string;
  sp_new := [];
  Load := fun _ path =>
    if String.eqb path "m.model" then Some vocab else None;
  SetDecodeExtraOptions := fun sp opts =>
    if empty opts then Some sp else None;
  Decode_pieces := fun _ pieces => decode_pieces pieces;
  Decode_ids := fun sp ids => decode_ids sp ids;
  Decode_pieces_spt := fun _ pieces => discard (decode_pieces pieces);
  Decode_ids_spt := fun sp ids => discard (decode_ids sp ids)
|}.

(** Three files: two lines of pieces (the second one empty), one line of
    ids, and four bytes of packed ids.  Standard input is empty. *)
Definition demo_fs : FileSystem := {|
  NewReadableFile := fun path =>
    if String.eqb path "pieces.txt" then Some ["Hello _world !"; ""]
    else if String.eqb path "ids.txt" then Some ["1 2 3"]
    else if String.eqb path "" then Some []
    else None;
  NewWritableFile := fun path => negb (String.eqb path "/readonly/out");
  open_ifstream := fun path =>
    if String.eqb path "ids.bin" then Some (regular_file [x0f; x00; x2a; x00])
    else if String.eqb path "small.bin" then Some (regular_file [x01; x00; x03; x00; x02])
    else None
|}.

(** The same files and one more, which no run below reads. *)
Definition demo_fs_more : FileSystem := {|
  NewReadableFile := fun path =>
    if String.eqb path "other.txt" then Some ["3 2 1"]
    else NewReadableFile demo_fs path;
  NewWritableFile := NewWritableFile demo_fs;
  open_ifstream := fun path =>
    if String.eqb path "other.bin" then Some (regular_file [x02; x00])
    else open_ifstream demo_fs path
|}.

Definition demo_flags (input input_format output_format : string)
  : Flags := {|
  FLAGS_model := "m.model";
  FLAGS_input := input;
  FLAGS_output := EmptyString;
  FLAGS_input_format := input_format;
  FLAGS_output_format := output_format;
  FLAGS_extra_options := EmptyString
|}.

Definition world (input input_format output_format : string)
    (positional : list string) : World := {|
  flags := demo_flags input input_format output_format;
  argv := "spm_decode" :: positional;
  model := demo_model;
  fs := demo_fs
|}.

(** The same run with another model path. *)
Definition with_model (path : string) (w : World) : World := {|
  flags := {|
    FLAGS_model := path;
    FLAGS_input := FLAGS_input (flags w);
    FLAGS_output := FLAGS_output (flags w);
    FLAGS_input_format := FLAGS_input_format (flags w);
    FLAGS_output_format := FLAGS_output_format (flags w);
    FLAGS_extra_options := FLAGS_extra_options (flags w)
  |};
  argv := argv w;
  model := model w;
  fs := fs w
|}.

End Demo.

(** ** Vocabulary of the statements *)

(** The two bytes of element [j] and the value they denote. *)
Definition element_at (bytes : list byte) (j : nat) (v : Z) : Prop :=
  exists b0 b1 : byte,
    bytes !! (2 * j)%nat = Some b0 /\
    bytes !! (2 * j + 1)%nat = Some b1 /\
    v = byte_val b0 + 256 * byte_val b1.


Fixpoint all_digits (s : string) : bool :=
  match s with
  | String c s' => isdigit c && all_digits s'
  | EmptyString => true
  end.

(** A token that is a decimal integer from its first to its last
    character: an optional sign, then one digit or more. *)
Definition is_decimal_integer (s : string) : bool :=
  match s with
  | String c s' =>
      if Ascii.eqb c "-" || Ascii.eqb c "+"
      then negb (empty s') && all_digits s'
      else all_digits s
  | EmptyString => false
  end.

Definition starts_with_digit (s : string) : bool :=
  match s with
  | String c _ => isdigit c
  | EmptyString => false
  end.

(** What is left of a token once its leading white space and one sign
    are passed. *)
Definition after_sign (s : string) : string :=
  match skip_space s with
  | String c s' =>
      if Ascii.eqb c "-" || Ascii.eqb c "+" then s' else String c s'
  | EmptyString => EmptyString
  end.

(** The token has a number at its start, in the sense of [strtol]. *)
Definition has_number (s : string) : bool := starts_with_digit (after_sign s).

Definition INT_MIN : Z := - 2 ^ 31.
Definition INT_MAX : Z := 2 ^ 31 - 1.

Definition is_Decode (e : Event) : bool :=
  match e with
  | Decode_pieces_ _ _ | Decode_ids_ _ _ => true
  | _ => false
  end.

Definition is_WriteLine (e : Event) : bool :=
  match e with
  | WriteLine_ _ => true
  | _ => false
  end.

Definition is_ReadLine (e : Event) : bool :=
  match e with
  | ReadLine_ _ => true
  | _ => false
  end.

(** Opening an input source, by either reader. *)
Definition is_input_open (e : Event) : bool :=
  match e with
  | NewReadableFile_ _ | ifstream_ _ => true
  | _ => false
  end.

(** Reading the model file or opening a file of any kind. *)
Definition is_file_access (e : Event) : bool :=
  match e with
  | Load_ _ | NewWritableFile_ _ | NewReadableFile_ _ | ifstream_ _ => true
  | _ => false
  end.

Definition count (p : Event -> bool) (t : list Event) : nat :=
  List.length (List.filter p t).

Definition known_input_format (s : string) : bool :=
  String.eqb s "piece" || String.eqb s "id" || String.eqb s "map".

Definition known_output_format (s : string) : bool :=
  String.eqb s "string" || String.eqb s "proto".

Definition known_formats (w : World) : bool :=
  known_input_format (FLAGS_input_format (flags w))
  && known_output_format (FLAGS_output_format (flags w)).

(** The diagnostic of lines 108-152 for the flags of [w]. *)
Definition unknown_format_diagnostic (w : World) : Diagnostic :=
  if known_input_format (FLAGS_input_format (flags w))
  then LOG_FATAL ("Unknown output format: "
                  ++ FLAGS_output_format (flags w))%string
  else LOG_FATAL ("Unknown input format: "
                  ++ FLAGS_input_format (flags w))%string.

(** The three events of a start that passed every check. *)
Definition startup_events (w : World) : list Event :=
  [Load_ (FLAGS_model (flags w));
   SetDecodeExtraOptions_ (FLAGS_extra_options (flags w));
   NewWritableFile_ (FLAGS_output (flags w))].

(** The lines of a text input, none when it does not open. *)
Definition lines_of (fsys : FileSystem) (filename : string) : list string :=
  match NewReadableFile fsys filename with
  | Some lines => lines
  | None => []
  end.

(** The lines of all the input sources of a run, in reading order. *)
Definition input_lines (w : World) : list string :=
  flat_map (lines_of (fs w)) (rest_args w).

(** What the run left in the output: each written line and its newline. *)
Fixpoint output_written (t : list Event) : string :=
  match t with
  | WriteLine_ text :: t' =>
      (text ++ String "010"%char (output_written t'))%string
  | _ :: t' => output_written t'
  | [] => EmptyString
  end.


(** A closure of the output format "string": its events are [Decode]
    calls and written lines, and an invocation that returns has written
    exactly one line. *)
Definition string_closure {A} (g : A -> M unit) : Prop :=
  forall x : A,
    (forall e, In e (trace (g x)) -> is_Decode e = true \/ is_WriteLine e = true) /\
    (outcome (g x) = Returned tt -> count is_WriteLine (trace (g x)) = 1%nat).

(** A closure of the output format "proto": its events are [Decode]
    calls only. *)
Definition proto_closure {A} (g : A -> M unit) : Prop :=
  forall (x : A) (e : Event), In e (trace (g x)) -> is_Decode e = true.

(** The closure [g] is the one of the output format of [w]. *)
Definition closure_of_format {A} (w : World) (g : A -> M unit) : Prop :=
  (FLAGS_output_format (flags w) = "string" /\ string_closure g) \/
  (FLAGS_output_format (flags w) = "proto" /\ proto_closure g).

(** ** Vocabulary of the further statements *)

(** The ids packed in a file, pair of bytes by pair of bytes, low byte
    first; a last byte without a partner counts for nothing. *)
Fixpoint uint16_pairs (bytes : list byte) : list Z :=
  match bytes with
  | b0 :: b1 :: rest => (byte_val b0 + 256 * byte_val b1) :: uint16_pairs rest
  | _ => []
  end.

Definition byte_of_Z (z : Z) : byte :=
  match Byte.of_N (Z.to_N z) with
  | Some b => b
  | None => x00
  end.

(** The packing that the reader undoes: each id as two bytes, low byte
    first.  It is what a producer of "map" files writes, not driver code. *)
Fixpoint pack_uint16 (ids : list Z) : list byte :=
  match ids with
  | [] => []
  | v :: ids' => byte_of_Z (v mod 256) :: byte_of_Z (v / 256) :: pack_uint16 ids'
  end.

(** The texts of the six guarded [Decode] calls of lines 108-152. *)
Definition decode_exprs : list string :=
  ["sp.Decode(pieces, &detok)"; "sp.Decode(pieces, &spt)";
   "sp.Decode(ids, &detok)"; "sp.Decode(ids, &spt)";
   "sp.Decode(ToIds(pieces), &detok)"; "sp.Decode(ToIds(pieces), &spt)"].

(** The diagnostic of a [Decode] call whose status was not OK. *)
Definition is_decode_failure (d : Diagnostic) : bool :=
  match d with
  | CHECK_OK_failed expr => existsb (String.eqb expr) decode_exprs
  | _ => false
  end.

(** A closure that starts with one [Decode] call and either returns,
    having written at most one line after it, or stops at that call with
    the diagnostic of the failed decode. *)
Definition guarded_closure {A} (g : A -> M unit) : Prop :=
  forall x : A,
    (exists ev tl, g x = (ev :: tl, Returned tt) /\ is_Decode ev = true /\
                   (tl = [] \/ exists text, tl = [WriteLine_ text])) \/
    (exists ev d, g x = ([ev], Aborted d) /\ is_Decode ev = true /\
                  is_decode_failure d = true).

(** One of the three calls of the start. *)
Definition is_startup_event (e : Event) : bool :=
  match e with
  | Load_ _ | SetDecodeExtraOptions_ _ | NewWritableFile_ _ => true
  | _ => false
  end.

(** The texts of the lines written, in the order they were written. *)
Definition written_lines (t : list Event) : list string :=
  flat_map (fun e => match e with WriteLine_ text => [text] | _ => [] end) t.


(** The text that the "string" closure of a text format decodes one line
    to: the pieces of the line for "piece", their ids otherwise. *)
Definition decode_line (w : World) (sp : Processor (model w)) (line : string)
  : option string :=
  let pieces := StrSplit line " "%char in
  if String.eqb (FLAGS_input_format (flags w)) "piece"
  then Decode_pieces (model w) sp pieces
  else Decode_ids (model w) sp (ToIds pieces).


(** The element count that the reader takes from the end position that
    [tellg()] reported. *)
Definition reported_count (end_pos : Z) : nat :=
  Z.to_nat (to_size_t (numElements_of end_pos)).

(** What stops the reader on a path, if anything: an element count above
    the largest vector, a vector that cannot be allocated, or a count above
    the pairs that the reads deliver.  None of them happens on a regular
    file that memory can hold, nor on a path that does not open. *)
Definition reader_fault (fsys : FileSystem) (filename : string)
  : option Diagnostic :=
  match open_ifstream fsys filename with
  | Some (other_file end_pos allocates bytes) =>
      if vector_max_size <? to_size_t (numElements_of end_pos)
      then Some length_error
      else if negb allocates then Some bad_alloc
      else if Nat.ltb (List.length bytes) (2 * reported_count end_pos)
           then Some indeterminate_value
           else None
  | _ => None
  end.

(** The ids that the reader hands on for a file: its pairs (the first
    [reported_count] ones in the cases of [other_file]), none when it does
    not open. *)
Definition ids_of_file (fsys : FileSystem) (filename : string) : list Z :=
  match open_ifstream fsys filename with
  | Some (regular_file bytes) => uint16_pairs bytes
  | Some (other_file end_pos allocates bytes) =>
      take (reported_count end_pos) (uint16_pairs bytes)
  | None => []
  end.


Definition is_ifstream (e : Event) : bool :=
  match e with
  | ifstream_ _ => true
  | _ => false
  end.

(** The written lines keep step with the input units counted by [p]: never
    ahead of them, at most one behind, and level when the computation
    returns. *)
Definition in_step {A} (p : Event -> bool) (m : M A) : Prop :=
  (count is_WriteLine (trace m) <= count p (trace m)
   <= count is_WriteLine (trace m) + 1)%nat /\
  (forall a, outcome m = Returned a ->
             count is_WriteLine (trace m) = count p (trace m)).

(** The number that a string of digits denotes, position by position. *)
Fixpoint decimal_value (s : string) : Z :=
  match s with
  | String c s' =>
      digit_val c * 10 ^ Z.of_nat (String.length s') + decimal_value s'
  | EmptyString => 0
  end.

(** ** Packed files to run the reader on *)

Module Packed.

(** Two packed files, their concatenation and a copy of the first.  Then
    the other cases: a directory, which opens, reports the largest [long]
    as its end and delivers no byte; a file of 4 TiB that memory cannot
    hold; a device that reports 0 as its end; a FIFO, on which the seek
    fails and [tellg()] reports -1. *)
Definition packed_fs : FileSystem := {|
  NewReadableFile := fun _ => None;
  NewWritableFile := fun _ => true;
  open_ifstream := fun path =>
    if String.eqb path "a.bin" then Some (regular_file [x01; x00])
    else if String.eqb path "b.bin" then Some (regular_file [x02; x00; x03])
    else if String.eqb path "ab.bin"
         then Some (regular_file [x01; x00; x02; x00; x03])
    else if String.eqb path "copy.bin" then Some (regular_file [x01; x00])
    else if String.eqb path "dir" then Some (other_file LONG_MAX true [])
    else if String.eqb path "huge.bin"
         then Some (other_file (2 ^ 42) false [x01; x00])
    else if String.eqb path "zero"
         then Some (other_file 0 true [x00; x00; x00; x00])
    else if String.eqb path "fifo"
         then Some (other_file (-1) true [x01; x00])
    else None
|}.


End Packed.

(** ** A run that is given no input source *)

Module Piped.

(** Standard input holds two lines; it is what [NewReadableFile] opens for
    the empty path.  [std::ifstream] opens no path here, the empty one
    least of all. *)
Definition piped_fs : FileSystem := {|
  NewReadableFile := fun path =>
    if String.eqb path EmptyString then Some ["Hello _world"; "!"] else None;
  NewWritableFile := fun _ => true;
  open_ifstream := fun _ => None
|}.

(** No input flag and no positional argument. *)
Definition piped_world (input_format : string) : World := {|
  flags := Demo.demo_flags EmptyString input_format "string";
  argv := ["spm_decode"];
  model := Demo.demo_model;
  fs := piped_fs
|}.

End Piped.

(** * Facts *)

(** ** The monad *)

Lemma trace_bind {A B} (m : M A) (k : A -> M B) :
  trace (m ≫= k)
  = trace m ++ match outcome m with
               | Returned a => trace (k a)
               | Aborted _ => []
               end.
Proof.
  unfold mbind, M_bind, bind, trace, outcome.
  destruct m as [t [a | d]]; cbn.
  - destruct (k a); reflexivity.
  - rewrite app_nil_r. reflexivity.
Qed.

Lemma outcome_bind {A B} (m : M A) (k : A -> M B) :
  outcome (m ≫= k)
  = match outcome m with
    | Returned a => outcome (k a)
    | Aborted d => Aborted d
    end.
Proof.
  unfold mbind, M_bind, bind, trace, outcome.
  destruct m as [t [a | d]]; cbn.
  - destruct (k a); reflexivity.
  - reflexivity.
Qed.

Lemma M_eta {A} (m : M A) : m = (trace m, outcome m).
Proof. destruct m; reflexivity. Qed.

Lemma bind_returned {A B} (m : M A) (k : A -> M B) (t : list Event) (a : A) :
  m = (t, Returned a) ->
  m ≫= k = (t ++ trace (k a), outcome (k a)).
Proof.
  intros ->. rewrite (M_eta (_ ≫= k)), trace_bind, outcome_bind.
  reflexivity.
Qed.

Lemma bind_aborted {A B} (m : M A) (k : A -> M B) (t : list Event)
    (d : Diagnostic) :
  m = (t, Aborted d) -> m ≫= k = (t, Aborted d).
Proof. intros ->. reflexivity. Qed.

(** A loop whose every body returns, returns, and its events are those of
    the bodies in order. *)
Lemma for_each_returned {A} (body : A -> M unit) (l : list A) :
  (forall x, In x l -> outcome (body x) = Returned tt) ->
  for_each l body = (flat_map (fun x => trace (body x)) l, Returned tt).
Proof.
  induction l as [| x l IH]; intros Hall.
  - reflexivity.
  - cbn [for_each flat_map].
    rewrite (bind_returned (body x) _ (trace (body x)) tt).
    + rewrite IH by (intros y Hy; apply Hall; right; exact Hy).
      reflexivity.
    + rewrite (M_eta (body x)) at 1. rewrite Hall by (left; reflexivity).
      reflexivity.
Qed.

(** A loop that returns ran every body to its end. *)
Lemma for_each_returned_inv {A} (body : A -> M unit) (l : list A) (u : unit) :
  outcome (for_each l body) = Returned u ->
  forall x, In x l -> outcome (body x) = Returned tt.
Proof.
  induction l as [| x l IH]; intros Hret y Hy.
  - destruct Hy.
  - cbn [for_each] in Hret. rewrite outcome_bind in Hret.
    destruct (outcome (body x)) as [[] | d] eqn:Hx; [| discriminate].
    destruct Hy as [<- | Hy]; [exact Hx | exact (IH Hret y Hy)].
Qed.

(** ** The scenarios of the specification, on the small world *)

Example scenario_A :
  main (Demo.world "" "piece" "string" ["pieces.txt"])
  = ([Load_ "m.model"; SetDecodeExtraOptions_ ""; NewWritableFile_ "";
      NewReadableFile_ "pieces.txt";
      ReadLine_ "Hello _world !";
      Decode_pieces_ ["Hello"; "_world"; "!"] to_detok;
      WriteLine_ "Hello_world!";
      ReadLine_ ""; Decode_pieces_ [] to_detok; WriteLine_ ""],
     Returned 0).
Proof. reflexivity. Qed.

Example scenario_B :
  process_id_string (Demo.world "" "id" "string" []) Demo.vocab
    (StrSplit "15 42 7" " "%char)
  = ([Decode_ids_ [15; 42; 7] to_detok],
     Aborted (CHECK_OK_failed "sp.Decode(ToIds(pieces), &detok)")).
Proof. reflexivity. Qed.

Example scenario_C :
  trace (main (Demo.world "" "map" "string" ["ids.bin"]))
  = [Load_ "m.model"; SetDecodeExtraOptions_ ""; NewWritableFile_ "";
     ifstream_ "ids.bin"; Decode_ids_ [15; 42] to_detok].
Proof. reflexivity. Qed.

Example scenario_D :
  outcome (main (Demo.world "" "xyz" "string" []))
  = Aborted (LOG_FATAL "Unknown input format: xyz").
Proof. reflexivity. Qed.

Example scenario_E :
  main (Demo.with_model "" (Demo.world "in.txt" "piece" "string" []))
  = ([], Aborted (CHECK_failed "!absl::GetFlag(FLAGS_model).empty()")).
Proof. reflexivity. Qed.

Example odd_length_file :
  readFileToVector Demo.demo_fs "small.bin"
  = ([ifstream_ "small.bin"], Returned [1; 3]).
Proof. reflexivity. Qed.

Example atoi_values :
  map atoi ["15"; "-7"; "+3"; " 42"; "12abc"; "abc"; ""; "-"; "0x10"]
  = [15; -7; 3; 42; 12; 0; 0; 0; 0].
Proof. reflexivity. Qed.

Example StrSplit_values :
  StrSplit "a b" " "%char = ["a"; "b"] /\
  StrSplit "a  b" " "%char = ["a"; ""; "b"] /\
  StrSplit "" " "%char = [].
Proof. repeat split. Qed.
(** ** Facts about the reader *)

Lemma byte_val_range (b : byte) : 0 <= byte_val b <= 255.
Proof.
  unfold byte_val. pose proof (Byte.to_N_bounded b). lia.
Qed.

(** Low byte and shifted high byte do not overlap, so [Z.lor] adds. *)
Lemma lor_shiftl_8 (lo hi : Z) :
  0 <= lo < 256 -> 0 <= hi ->
  Z.lor lo (Z.shiftl hi 8) = lo + 256 * hi.
Proof.
  intros Hlo Hhi.
  assert (Hdisj : Z.land lo (Z.shiftl hi 8) = 0).
  { apply Z.bits_inj'. intros n Hn.
    rewrite Z.land_spec, Z.bits_0.
    destruct (Z.lt_ge_cases n 8) as [Hlt | Hge].
    - rewrite (Z.shiftl_spec_low hi 8 n Hlt). apply andb_false_r.
    - destruct (Z.eq_dec lo 0) as [-> | Hnz].
      + rewrite Z.bits_0. reflexivity.
      + rewrite (Z.bits_above_log2 lo n); [reflexivity | lia |].
        apply Z.log2_lt_pow2; [lia |].
        apply Z.lt_le_trans with (2 ^ 8); [change (2 ^ 8) with 256; lia |].
        apply Z.pow_le_mono_r; lia. }
  rewrite <- Z.lxor_lor by exact Hdisj.
  rewrite <- Z.add_nocarry_lxor by exact Hdisj.
  rewrite Z.shiftl_mul_pow2 by lia. change (2 ^ 8) with 256. lia.
Qed.

Lemma uint16_of_bytes_val (b0 b1 : byte) :
  uint16_of_bytes [b0; b1] = Some (byte_val b0 + 256 * byte_val b1).
Proof.
  unfold uint16_of_bytes.
  pose proof (byte_val_range b0). pose proof (byte_val_range b1).
  rewrite lor_shiftl_8 by lia. reflexivity.
Qed.

Lemma read_two (bytes : list byte) (p : nat) (b0 b1 : byte) :
  bytes !! p = Some b0 -> bytes !! S p = Some b1 ->
  read sizeof_uint16_t {| buf := bytes; gpos := p |}
  = Some ([b0; b1], {| buf := bytes; gpos := (p + 2)%nat |}).
Proof.
  intros H0 H1. unfold read, sizeof_uint16_t. cbn [buf gpos].
  rewrite (drop_S bytes b0 p H0), (drop_S bytes b1 (S p) H1).
  reflexivity.
Qed.

(** Invariant of the loop: it never reads short, keeps the slots below [i]
    and fills the slots [i .. i + k). *)
Lemma read_elements_inv (bytes : list byte) (k : nat) :
  forall (i : nat) (result : list Z),
    (2 * (i + k) <= List.length bytes)%nat ->
    List.length result = (i + k)%nat ->
    exists result' : list Z,
      read_elements k i {| buf := bytes; gpos := (2 * i)%nat |} result
      = ([], Returned result') /\
      List.length result' = List.length result /\
      (forall j, (j < i)%nat -> result' !! j = result !! j) /\
      (forall j, (i <= j < i + k)%nat ->
                 exists v, result' !! j = Some v /\ element_at bytes j v).
Proof.
  induction k as [| k IH]; intros i result Hsz Hlen.
  - exists result. cbn. repeat split; auto. intros j Hj. lia.
  - destruct (lookup_lt_is_Some_2 bytes (2 * i)%nat) as [b0 Hb0]; [lia |].
    destruct (lookup_lt_is_Some_2 bytes (S (2 * i))%nat) as [b1 Hb1]; [lia |].
    cbn [read_elements].
    rewrite (read_two bytes (2 * i) b0 b1 Hb0 Hb1).
    rewrite uint16_of_bytes_val.
    replace (2 * i + 2)%nat with (2 * S i)%nat by lia.
    set (v := static_cast_int (byte_val b0 + 256 * byte_val b1)).
    destruct (IH (S i) (<[i := v]> result)) as (r' & Hrun & Hlen' & Hlow & Hhigh).
    { lia. }
    { rewrite length_insert. lia. }
    exists r'. rewrite Hrun. split; [reflexivity |].
    split; [rewrite Hlen', length_insert; reflexivity |].
    split.
    + intros j Hj. rewrite Hlow by lia.
      apply list_lookup_insert_ne. lia.
    + intros j Hj. destruct (Nat.eq_dec j i) as [-> | Hne].
      * exists v. split.
        -- rewrite Hlow by lia. apply list_lookup_insert_eq. lia.
        -- exists b0, b1. repeat split; auto.
           replace (2 * i + 1)%nat with (S (2 * i)) by lia. exact Hb1.
      * apply Hhigh. lia.
Qed.

(** A file that opens: the reader returns, with one slot per pair of
    bytes, each filled from its pair. *)
Lemma readFileToVector_opened (fsys : FileSystem) (filename : string)
    (bytes : list byte) :
  open_ifstream fsys filename = Some (regular_file bytes) ->
  exists result : list Z,
    readFileToVector fsys filename = ([ifstream_ filename], Returned result) /\
    List.length result = (List.length bytes / 2)%nat /\
    (forall i, (i < List.length bytes / 2)%nat ->
       exists v, result !! i = Some v /\ element_at bytes i v /\
                 0 <= v <= 65535).
Proof.
  intros Hopen.
  set (n := (List.length bytes / 2)%nat).
  destruct (read_elements_inv bytes n 0 (replicate n 0))
    as (result & Hrun & Hlen & _ & Hfill).
  { pose proof (Nat.Div0.mul_div_le (List.length bytes) 2). fold n in H. lia. }
  { rewrite length_replicate. reflexivity. }
  exists result. split.
  { unfold readFileToVector. rewrite Hopen.
    unfold seekg_end, seekg_beg, tellg, sizeof_uint16_t. cbn [buf gpos].
    fold n. change (2 * 0)%nat with 0%nat in Hrun. rewrite Hrun.
    reflexivity. }
  split; [rewrite Hlen; apply length_replicate |].
  intros i Hi. destruct (Hfill i) as (v & Hv & Hel); [lia |].
  exists v. split; [exact Hv |]. split; [exact Hel |].
  destruct Hel as (b0 & b1 & _ & _ & ->).
  pose proof (byte_val_range b0). pose proof (byte_val_range b1). lia.
Qed.

(** C4.  A file of N bytes that opens is read into exactly N / 2 integers
    (a trailing odd byte is dropped); element i is the unsigned
    little-endian 16-bit value of bytes 2i and 2i+1 and lies in 0..65535;
    the reader performs no other effect than opening the file; the bytes
    0F 00 2A 00 give [15; 42]. *)
Theorem readFileToVector_elements (fsys : FileSystem) (filename : string)
    (bytes : list byte) :
  open_ifstream fsys filename = Some (regular_file bytes) ->
  exists result : list Z,
    readFileToVector fsys filename = ([ifstream_ filename], Returned result) /\
    List.length result = (List.length bytes / 2)%nat /\
    (forall i, (i < List.length bytes / 2)%nat ->
       exists v, result !! i = Some v /\ element_at bytes i v /\
                 0 <= v <= 65535) /\
    (bytes = [x0f; x00; x2a; x00] -> result = [15; 42]).
Proof.
  intros Hopen.
  destruct (readFileToVector_opened fsys filename bytes Hopen)
    as (result & Hrun & Hlen & Hel).
  exists result. repeat split; try assumption.
  intros ->.
  assert (Hval : readFileToVector fsys filename
                 = ([ifstream_ filename], Returned [15; 42])).
  { unfold readFileToVector. rewrite Hopen. reflexivity. }
  congruence.
Qed.

Lemma readFileToVector_elements_witness :
  exists result : list Z,
    readFileToVector Demo.demo_fs "small.bin"
    = ([ifstream_ "small.bin"], Returned result) /\
    List.length result = 2%nat /\
    (forall i, (i < 2)%nat ->
       exists v, result !! i = Some v /\
                 element_at [x01; x00; x03; x00; x02] i v /\
                 0 <= v <= 65535) /\
    ([x01; x00; x03; x00; x02] = [x0f; x00; x2a; x00] -> result = [15; 42]).
Proof.
  apply (readFileToVector_elements Demo.demo_fs "small.bin"
           [x01; x00; x03; x00; x02]).
  reflexivity.
Defined.

(** ** The input sources *)

Lemma empty_iff (s : string) : empty s = true <-> s = EmptyString.
Proof. destruct s; cbn; split; congruence. Qed.

Lemma empty_false_iff (s : string) : empty s = false <-> s <> EmptyString.
Proof. destruct s; cbn; split; congruence. Qed.

(** The loop copies [k] arguments from index [i] on, in order. *)
Lemma push_argv_spec (args : list string) (k : nat) :
  forall (i : nat) (acc : list string),
    (i + k <= List.length args)%nat ->
    push_argv k i args acc = acc ++ take k (drop i args).
Proof.
  induction k as [| k IH]; intros i acc Hle; cbn [push_argv].
  - rewrite take_0, app_nil_r. reflexivity.
  - destruct (lookup_lt_is_Some_2 args i) as [a Ha]; [lia |].
    rewrite Ha, IH by lia.
    rewrite (drop_S args a i Ha). cbn [take].
    rewrite <- app_assoc. reflexivity.
Qed.

Lemma push_argv_positional (args : list string) :
  push_argv (List.length args - 1) 1 args [] = tail args.
Proof.
  destruct args as [| a0 args]; [reflexivity |].
  rewrite push_argv_spec by (cbn; lia).
  cbn [List.length tail drop app].
  replace (S (List.length args) - 1)%nat with (List.length args) by lia.
  rewrite drop_0. apply firstn_all.
Qed.

(** The list of the input sources.  With a non-empty input flag that file
    is the only one; otherwise the positional arguments are the input
    sources, in argument order; with neither, the list holds the empty
    path alone. *)
Lemma rest_args_sources (w : World) :
  (FLAGS_input (flags w) <> EmptyString ->
   rest_args w = [FLAGS_input (flags w)]) /\
  (FLAGS_input (flags w) = EmptyString -> tail (argv w) <> [] ->
   rest_args w = tail (argv w)) /\
  (FLAGS_input (flags w) = EmptyString -> tail (argv w) = [] ->
   rest_args w = [EmptyString]).
Proof.
  unfold rest_args. repeat split.
  - intros Hin. apply empty_false_iff in Hin. rewrite Hin. reflexivity.
  - intros Hin Hpos. apply empty_iff in Hin.
    rewrite Hin, push_argv_positional.
    destruct (tail (argv w)); [contradiction | reflexivity].
  - intros Hin Hpos. apply empty_iff in Hin.
    rewrite Hin, push_argv_positional, Hpos. reflexivity.
Qed.

Lemma rest_args_sources_witness :
  rest_args (Demo.world "ids.txt" "id" "string" ["a"; "b"]) = ["ids.txt"] /\
  rest_args (Demo.world "" "id" "string" ["a"; "b"]) = ["a"; "b"] /\
  rest_args (Demo.world "" "id" "string" []) = [EmptyString].
Proof.
  split; [| split].
  - apply (rest_args_sources (Demo.world "ids.txt" "id" "string" ["a"; "b"])).
    discriminate.
  - apply (rest_args_sources (Demo.world "" "id" "string" ["a"; "b"])).
    + reflexivity.
    + discriminate.
  - apply (rest_args_sources (Demo.world "" "id" "string" [])); reflexivity.
Defined.

(** ** The id conversion *)

Lemma isdigit_not_space (c : ascii) : isdigit c = true -> isspace c = false.
Proof.
  unfold isdigit, isspace. intros H.
  apply andb_true_iff in H. destruct H as [H1 H2].
  apply Nat.leb_le in H1. apply Nat.leb_le in H2.
  apply orb_false_iff. split.
  - apply Nat.eqb_neq. lia.
  - apply andb_false_iff. right. apply Nat.leb_gt. lia.
Qed.

Lemma isdigit_not_sign (c : ascii) :
  isdigit c = true -> Ascii.eqb c "-" = false /\ Ascii.eqb c "+" = false.
Proof.
  intros H. split.
  - destruct (Ascii.eqb_spec c "-") as [-> |]; [discriminate H | reflexivity].
  - destruct (Ascii.eqb_spec c "+") as [-> |]; [discriminate H | reflexivity].
Qed.

Lemma digits_value_no_digit (acc : Z) (s : string) :
  starts_with_digit s = false -> digits_value acc s = acc.
Proof.
  destruct s as [| c s]; cbn; [reflexivity |].
  intros ->. reflexivity.
Qed.

(** The scan of the digits does not look past the first other character. *)
Lemma digits_value_app (ds rest : string) :
  all_digits ds = true -> starts_with_digit rest = false ->
  forall acc, digits_value acc (ds ++ rest) = digits_value acc ds.
Proof.
  intros Hds Hrest. induction ds as [| c ds IH]; intros acc; cbn.
  - apply digits_value_no_digit; exact Hrest.
  - cbn in Hds. apply andb_true_iff in Hds. destruct Hds as [Hc Hds].
    rewrite Hc. apply IH. exact Hds.
Qed.

Lemma long_to_int_range (z : Z) : INT_MIN <= long_to_int z <= INT_MAX.
Proof.
  unfold long_to_int, INT_MIN, INT_MAX.
  pose proof (Z.mod_pos_bound (z + 2 ^ 31) (2 ^ 32) ltac:(lia)). lia.
Qed.

Lemma atoi_no_number (s : string) : has_number s = false -> atoi s = 0.
Proof.
  unfold has_number, after_sign, atoi, strtol.
  destruct (skip_space s) as [| c s']; [reflexivity |].
  destruct (Ascii.eqb c "-"); cbn [orb].
  - intros H. rewrite (digits_value_no_digit 0 s' H). reflexivity.
  - destruct (Ascii.eqb c "+"); intros H;
      rewrite (digits_value_no_digit 0 _ H); reflexivity.
Qed.

Lemma atoi_digits_app (ds rest : string) :
  ds <> EmptyString -> all_digits ds = true ->
  starts_with_digit rest = false ->
  atoi (ds ++ rest) = atoi ds.
Proof.
  intros Hne Hds Hrest. destruct ds as [| c ds]; [congruence |].
  pose proof Hds as Hc. cbn in Hc. apply andb_true_iff in Hc.
  destruct Hc as [Hc _].
  destruct (isdigit_not_sign c Hc) as [Hm Hp].
  unfold atoi, strtol. cbn [append skip_space].
  rewrite (isdigit_not_space c Hc), Hm, Hp.
  change (String c (ds ++ rest)) with (String c ds ++ rest)%string.
  rewrite (digits_value_app (String c ds) rest Hds Hrest). reflexivity.
Qed.

Lemma digit_val_range (c : ascii) : isdigit c = true -> 0 <= digit_val c <= 9.
Proof.
  unfold isdigit, digit_val. intros H.
  apply andb_true_iff in H. destruct H as [H1 H2].
  apply Nat.leb_le in H1. apply Nat.leb_le in H2. lia.
Qed.

Lemma decimal_value_nonneg (ds : string) :
  all_digits ds = true -> 0 <= decimal_value ds.
Proof.
  induction ds as [| c ds IH]; cbn [all_digits decimal_value]; [lia |].
  intros H. apply andb_true_iff in H. destruct H as [Hc Hds].
  pose proof (digit_val_range c Hc). specialize (IH Hds).
  pose proof (Z.pow_nonneg 10 (Z.of_nat (String.length ds)) ltac:(lia)).
  nia.
Qed.

(** The scan of [strtol] is Horner's rule for the positional value. *)
Lemma digits_value_decimal (ds : string) :
  all_digits ds = true ->
  forall acc,
    digits_value acc ds
    = acc * 10 ^ Z.of_nat (String.length ds) + decimal_value ds.
Proof.
  induction ds as [| c ds IH]; cbn [all_digits digits_value decimal_value];
    intros H acc.
  - cbn. lia.
  - apply andb_true_iff in H. destruct H as [Hc Hds].
    rewrite Hc, (IH Hds). cbn [String.length].
    rewrite Nat2Z.inj_succ, Z.pow_succ_r by lia. ring.
Qed.

Lemma long_to_int_small (z : Z) :
  INT_MIN <= z <= INT_MAX -> long_to_int z = z.
Proof.
  unfold INT_MIN, INT_MAX, long_to_int. intros Hz.
  rewrite Z.mod_small by lia. lia.
Qed.

(** A leading run of digits whose value fits an [int] is converted to
    that value, with its sign, whatever follows the run. *)
Lemma atoi_prefix_value (ds rest : string) :
  ds <> EmptyString -> all_digits ds = true ->
  starts_with_digit rest = false -> decimal_value ds <= INT_MAX ->
  atoi (ds ++ rest) = decimal_value ds /\
  atoi (String "-" (ds ++ rest)) = - decimal_value ds /\
  atoi (String "+" (ds ++ rest)) = decimal_value ds.
Proof.
  intros Hne Hds Hrest Hmax.
  pose proof (decimal_value_nonneg ds Hds) as Hpos.
  pose proof (digits_value_decimal ds Hds 0) as Hval.
  rewrite Z.mul_0_l, Z.add_0_l in Hval.
  rewrite <- (digits_value_app ds rest Hds Hrest 0) in Hval.
  unfold INT_MAX in Hmax.
  assert (Hmin : Z.min LONG_MAX (decimal_value ds) = decimal_value ds).
  { unfold LONG_MAX. lia. }
  assert (Hmaxn : Z.max LONG_MIN (- decimal_value ds) = - decimal_value ds).
  { unfold LONG_MIN. lia. }
  split; [| split].
  - destruct ds as [| c ds]; [congruence |].
    pose proof Hds as Hc. cbn [all_digits] in Hc.
    apply andb_true_iff in Hc. destruct Hc as [Hc _].
    destruct (isdigit_not_sign c Hc) as [Hm Hp].
    unfold atoi, strtol. cbn [append skip_space].
    rewrite (isdigit_not_space c Hc), Hm, Hp.
    change (String c (ds ++ rest)) with (String c ds ++ rest)%string.
    rewrite Hval, Hmin.
    apply long_to_int_small. unfold INT_MIN, INT_MAX. lia.
  - unfold atoi, strtol. cbn [skip_space].
    change (isspace "-") with false. cbn iota.
    change (Ascii.eqb "-" "-") with true. cbn iota.
    rewrite Hval, Hmaxn.
    apply long_to_int_small. unfold INT_MIN, INT_MAX. lia.
  - unfold atoi, strtol. cbn [skip_space].
    change (isspace "+") with false. cbn iota.
    change (Ascii.eqb "+" "-") with false.
    change (Ascii.eqb "+" "+") with true. cbn iota.
    rewrite Hval, Hmin.
    apply long_to_int_small. unfold INT_MIN, INT_MAX. lia.
Qed.

Lemma ToIds_length (pieces : list string) :
  List.length (ToIds pieces) = List.length pieces.
Proof. induction pieces; cbn; congruence. Qed.

Lemma ToIds_lookup (pieces : list string) :
  forall i s, pieces !! i = Some s -> ToIds pieces !! i = Some (atoi s).
Proof.
  induction pieces as [| p pieces IH]; intros [| i] s H; try discriminate.
  - cbn in *. congruence.
  - cbn in *. apply IH. exact H.
Qed.

(** C3, as the code has it.  [ToIds] gives one [int] per token and has no
    failure path.  A token with no digit at its start (after white space
    and one optional sign) gives 0.  A token that starts with digits,
    possibly after one sign, gives the signed decimal value of that run of
    digits whenever the value fits an [int], whatever follows the run;
    what follows the digits is never looked at. *)
Theorem ToIds_lenient (pieces : list string) (i : nat) (s : string) :
  pieces !! i = Some s ->
  List.length (ToIds pieces) = List.length pieces /\
  ToIds pieces !! i = Some (atoi s) /\
  INT_MIN <= atoi s <= INT_MAX /\
  (has_number s = false -> atoi s = 0) /\
  (forall ds rest : string,
     ds <> EmptyString -> all_digits ds = true ->
     starts_with_digit rest = false ->
     (s = (ds ++ rest)%string -> atoi s = atoi ds) /\
     (decimal_value ds <= INT_MAX ->
      (s = (ds ++ rest)%string -> atoi s = decimal_value ds) /\
      (s = String "-" (ds ++ rest) -> atoi s = - decimal_value ds) /\
      (s = String "+" (ds ++ rest) -> atoi s = decimal_value ds))).
Proof.
  intros Hs. split; [apply ToIds_length |].
  split; [apply ToIds_lookup; exact Hs |].
  split; [apply long_to_int_range |].
  split; [apply atoi_no_number |].
  intros ds rest Hne Hds Hrest. split.
  - intros ->. apply atoi_digits_app; assumption.
  - intros Hmax.
    destruct (atoi_prefix_value ds rest Hne Hds Hrest Hmax) as (Hp & Hm & Hpl).
    repeat split; intros ->; assumption.
Qed.

Lemma ToIds_lenient_witness :
  ToIds ["7"; "abc"; "12abc"; "-5x"] !! 1%nat = Some 0 /\
  ToIds ["7"; "abc"; "12abc"; "-5x"] !! 2%nat = Some 12 /\
  ToIds ["7"; "abc"; "12abc"; "-5x"] !! 3%nat = Some (-5).
Proof.
  split; [| split].
  - destruct (ToIds_lenient ["7"; "abc"; "12abc"; "-5x"] 1 "abc" eq_refl)
      as (_ & Hget & _ & Hzero & _).
    rewrite Hget, Hzero; reflexivity.
  - destruct (ToIds_lenient ["7"; "abc"; "12abc"; "-5x"] 2 "12abc" eq_refl)
      as (_ & Hget & _ & _ & Hprefix).
    destruct (Hprefix "12" "abc") as [_ Hval];
      [discriminate | reflexivity | reflexivity |].
    destruct Hval as (Hp & _ & _); [apply Z.leb_le; reflexivity |].
    rewrite Hget, Hp; reflexivity.
  - destruct (ToIds_lenient ["7"; "abc"; "12abc"; "-5x"] 3 "-5x" eq_refl)
      as (_ & Hget & _ & _ & Hprefix).
    destruct (Hprefix "5" "x") as [_ Hval];
      [discriminate | reflexivity | reflexivity |].
    destruct Hval as (_ & Hm & _); [apply Z.leb_le; reflexivity |].
    rewrite Hget, Hm; reflexivity.
Defined.

(** C3 as first stated fails: the token 12abc is not a decimal integer,
    and it is converted to 12, not to 0. *)
Lemma ToIds_invalid_token_not_zero :
  is_decimal_integer "12abc" = false /\
  ToIds ["12abc"] = [12] /\
  ~ (forall s, is_decimal_integer s = false -> ToIds [s] = [0]).
Proof.
  split; [reflexivity |]. split; [reflexivity |].
  intros H. specialize (H "12abc" eq_refl). discriminate H.
Qed.

(** ** Start and dispatch *)

Ltac run_M := unfold mbind, M_bind, bind, CHECK, CHECK_OK, status_of,
                emit, die, ret, LOG_FATAL_; cbn.

(** The start performs its three calls in order and stops at the first
    check that fails. *)
Lemma startup_prefix (w : World) :
  exists t' : list Event,
    startup_events w = trace (startup w) ++ t' /\
    (forall sp, outcome (startup w) = Returned sp -> t' = []).
Proof.
  unfold startup, startup_events.
  destruct (empty (FLAGS_model (flags w))); run_M.
  { eexists. split; [reflexivity | discriminate]. }
  destruct (Load (model w) (sp_new (model w)) (FLAGS_model (flags w)))
    as [sp0 |]; run_M.
  2: { eexists. split; [reflexivity | discriminate]. }
  destruct (SetDecodeExtraOptions (model w) sp0 (FLAGS_extra_options (flags w)))
    as [sp1 |]; run_M.
  2: { eexists. split; [reflexivity | discriminate]. }
  destruct (NewWritableFile (fs w) (FLAGS_output (flags w))); run_M.
  - exists []. split; [reflexivity | reflexivity].
  - eexists. split; [reflexivity | discriminate].
Qed.

Lemma startup_returned (w : World) (sp : Processor (model w)) :
  outcome (startup w) = Returned sp ->
  startup w = (startup_events w, Returned sp).
Proof.
  intros Hret. destruct (startup_prefix w) as (t' & Hpre & Hnil).
  rewrite (Hnil sp Hret), app_nil_r in Hpre.
  rewrite (M_eta (startup w)), Hret, <- Hpre. reflexivity.
Qed.

Lemma startup_no_model (w : World) :
  FLAGS_model (flags w) = EmptyString ->
  startup w = ([], Aborted (CHECK_failed "!absl::GetFlag(FLAGS_model).empty()")).
Proof.
  intros Hm. unfold startup. rewrite Hm. reflexivity.
Qed.

(** Every event of the start is one of its three calls. *)
Lemma startup_trace_In (w : World) (e : Event) :
  In e (trace (startup w)) -> In e (startup_events w).
Proof.
  destruct (startup_prefix w) as (t' & Hpre & _).
  rewrite Hpre. intros H. apply in_or_app. left. exact H.
Qed.

(** The dispatch performs no call; with an unknown format it ends the run
    with the diagnostic of the offending flag. *)
Lemma dispatch_trace (w : World) (sp : Processor (model w)) :
  trace (dispatch w sp) = [].
Proof.
  unfold dispatch, unknown_output_format, unknown_input_format.
  repeat match goal with
         | |- context [if ?b then _ else _] => destruct b
         end; reflexivity.
Qed.

Lemma dispatch_unknown (w : World) (sp : Processor (model w)) :
  known_formats w = false ->
  dispatch w sp = ([], Aborted (unknown_format_diagnostic w)).
Proof.
  unfold unknown_format_diagnostic, known_formats, known_input_format,
    known_output_format, dispatch, unknown_output_format,
    unknown_input_format.
  destruct (String.eqb (FLAGS_input_format (flags w)) "piece");
    destruct (String.eqb (FLAGS_input_format (flags w)) "id");
    destruct (String.eqb (FLAGS_input_format (flags w)) "map");
    destruct (String.eqb (FLAGS_output_format (flags w)) "string");
    destruct (String.eqb (FLAGS_output_format (flags w)) "proto");
    cbn; intros H; try discriminate H; reflexivity.
Qed.

(** With known formats the dispatch assigns exactly one of the two
    closures, the one of the format pair. *)
Lemma dispatch_known (w : World) (sp : Processor (model w)) :
  known_formats w = true ->
  exists c : Closures,
    dispatch w sp = ([], Returned c) /\
    (if String.eqb (FLAGS_input_format (flags w)) "map"
     then fst c = None /\
          snd c = Some (if String.eqb (FLAGS_output_format (flags w)) "string"
                        then process_map_string w sp
                        else process_map_proto w sp)
     else snd c = None /\
          fst c = Some (if String.eqb (FLAGS_input_format (flags w)) "piece"
                        then if String.eqb (FLAGS_output_format (flags w))
                                           "string"
                             then process_piece_string w sp
                             else process_piece_proto w sp
                        else if String.eqb (FLAGS_output_format (flags w))
                                           "string"
                             then process_id_string w sp
                             else process_id_proto w sp)).
Proof.
  unfold known_formats, known_input_format, known_output_format, dispatch.
  destruct (String.eqb_spec (FLAGS_input_format (flags w)) "piece") as [-> | _];
    [cbn [String.eqb Ascii.eqb Bool.eqb] |].
  - destruct (String.eqb (FLAGS_output_format (flags w)) "string");
      destruct (String.eqb (FLAGS_output_format (flags w)) "proto");
      cbn; intros H; try discriminate H; eexists; split; try reflexivity;
      split; reflexivity.
  - destruct (String.eqb (FLAGS_input_format (flags w)) "map");
      destruct (String.eqb (FLAGS_input_format (flags w)) "id");
      destruct (String.eqb (FLAGS_output_format (flags w)) "string");
      destruct (String.eqb (FLAGS_output_format (flags w)) "proto");
      cbn; intros H; try discriminate H; eexists; split; try reflexivity;
      split; reflexivity.
Qed.

(** ** Configuration errors *)

Lemma main_startup_aborted (w : World) (d : Diagnostic) :
  outcome (startup w) = Aborted d ->
  main w = (trace (startup w), Aborted d).
Proof.
  intros Hab. unfold main.
  apply bind_aborted. rewrite (M_eta (startup w)) at 1. rewrite Hab.
  reflexivity.
Qed.

Lemma main_unknown_format (w : World) (sp : Processor (model w)) :
  outcome (startup w) = Returned sp ->
  known_formats w = false ->
  main w = (startup_events w, Aborted (unknown_format_diagnostic w)).
Proof.
  intros Hret Hfmt. unfold main.
  rewrite (bind_returned _ _ _ _ (startup_returned w sp Hret)).
  rewrite (dispatch_unknown w sp Hfmt). cbn [trace outcome fst snd mbind M_bind bind].
  rewrite app_nil_r. reflexivity.
Qed.

Lemma main_known_formats (w : World) (sp : Processor (model w)) (c : Closures) :
  outcome (startup w) = Returned sp ->
  dispatch w sp = ([], Returned c) ->
  main w = (startup_events w ++ trace (batch w c),
            match outcome (batch w c) with
            | Returned _ => Returned 0
            | Aborted d => Aborted d
            end).
Proof.
  intros Hret Hc. unfold main.
  rewrite (bind_returned _ _ _ _ (startup_returned w sp Hret)).
  rewrite (bind_returned _ _ _ _ Hc). cbn [app].
  rewrite trace_bind, outcome_bind.
  destruct (outcome (batch w c)) as [[] | d]; cbn [trace outcome ret fst snd mret M_ret];
    rewrite ?app_nil_r; reflexivity.
Qed.

(** With an unknown format no run gets past the dispatch: its events are
    events of the start. *)
Lemma main_unknown_format_trace (w : World) (e : Event) :
  known_formats w = false ->
  In e (trace (main w)) -> In e (startup_events w).
Proof.
  intros Hfmt. destruct (outcome (startup w)) as [sp | d] eqn:Hst.
  - rewrite (main_unknown_format w sp Hst Hfmt). cbn [trace fst]. auto.
  - rewrite (main_startup_aborted w d Hst). cbn [trace fst].
    apply startup_trace_In.
Qed.

(** C5, as the code has it.  With an unknown input or output format the
    run always ends fatally and never calls [Decode]; it ends with the
    "unknown format" diagnostic that names the offending value when the
    start (model path, model load, extra options, output) passed, and with
    the diagnostic of the start otherwise. *)
Theorem unknown_format_is_fatal (w : World) :
  known_formats w = false ->
  (exists d, outcome (main w) = Aborted d) /\
  (forall e, In e (trace (main w)) -> is_Decode e = false) /\
  (forall sp, outcome (startup w) = Returned sp ->
     outcome (main w) = Aborted (unknown_format_diagnostic w)) /\
  (forall d, outcome (startup w) = Aborted d -> outcome (main w) = Aborted d).
Proof.
  intros Hfmt. split; [| split; [| split]].
  - destruct (outcome (startup w)) as [sp | d] eqn:Hst.
    + rewrite (main_unknown_format w sp Hst Hfmt). eexists. reflexivity.
    + rewrite (main_startup_aborted w d Hst). eexists. reflexivity.
  - intros e He. apply (main_unknown_format_trace w e Hfmt) in He.
    unfold startup_events in He. cbn in He.
    destruct He as [<- | [<- | [<- | []]]]; reflexivity.
  - intros sp Hst. rewrite (main_unknown_format w sp Hst Hfmt). reflexivity.
  - intros d Hst. rewrite (main_startup_aborted w d Hst). reflexivity.
Qed.

Lemma unknown_format_is_fatal_witness :
  known_formats (Demo.world "" "xyz" "string" ["ids.txt"]) = false /\
  outcome (main (Demo.world "" "xyz" "string" ["ids.txt"]))
  = Aborted (LOG_FATAL "Unknown input format: xyz").
Proof.
  split; [reflexivity |].
  destruct (unknown_format_is_fatal (Demo.world "" "xyz" "string" ["ids.txt"])
              eq_refl) as (_ & _ & Hdiag & _).
  exact (Hdiag Demo.vocab eq_refl).
Defined.

(** C5 as first stated fails: with the unknown input format xyz and a
    model file that does not load, the run ends with the diagnostic of the
    failed load and no "unknown format" diagnostic is issued. *)
Lemma unknown_format_not_reported :
  known_formats (Demo.with_model "nope.model"
                   (Demo.world "" "xyz" "string" ["ids.txt"])) = false /\
  main (Demo.with_model "nope.model"
          (Demo.world "" "xyz" "string" ["ids.txt"]))
  = ([Load_ "nope.model"],
     Aborted (CHECK_OK_failed "sp.Load(absl::GetFlag(FLAGS_model))")) /\
  ~ (forall w, known_formats w = false ->
               exists msg, outcome (main w) = Aborted (LOG_FATAL msg)).
Proof.
  split; [reflexivity |]. split; [reflexivity |].
  intros H.
  destruct (H (Demo.with_model "nope.model"
                 (Demo.world "" "xyz" "string" ["ids.txt"])) eq_refl)
    as [msg Hmsg].
  discriminate Hmsg.
Qed.

(** C6, as the code has it.  A missing model path ends the run before any
    call leaves the process.  An unknown format ends the run before any
    input source is opened and before any line is decoded or written, but
    after the start: when the start passed, the model file was loaded and
    the output was opened by then. *)
Theorem configuration_errors_order (w : World) :
  (FLAGS_model (flags w) = EmptyString ->
   main w = ([], Aborted (CHECK_failed "!absl::GetFlag(FLAGS_model).empty()")))
  /\
  (known_formats w = false ->
   (forall e, In e (trace (main w)) ->
      is_input_open e = false /\ is_Decode e = false /\
      is_WriteLine e = false) /\
   (forall sp, outcome (startup w) = Returned sp ->
      main w = ([Load_ (FLAGS_model (flags w));
                 SetDecodeExtraOptions_ (FLAGS_extra_options (flags w));
                 NewWritableFile_ (FLAGS_output (flags w))],
                Aborted (unknown_format_diagnostic w)))).
Proof.
  split.
  - intros Hm. rewrite (main_startup_aborted w _
                          (f_equal outcome (startup_no_model w Hm))).
    rewrite (startup_no_model w Hm). reflexivity.
  - intros Hfmt. split.
    + intros e He. apply (main_unknown_format_trace w e Hfmt) in He.
      unfold startup_events in He. cbn in He.
      destruct He as [<- | [<- | [<- | []]]]; repeat split; reflexivity.
    + intros sp Hst. apply (main_unknown_format w sp Hst Hfmt).
Qed.

Lemma configuration_errors_order_witness :
  main (Demo.with_model "" (Demo.world "" "piece" "string" ["pieces.txt"]))
  = ([], Aborted (CHECK_failed "!absl::GetFlag(FLAGS_model).empty()")) /\
  main (Demo.world "" "piece" "text" ["pieces.txt"])
  = ([Load_ "m.model"; SetDecodeExtraOptions_ ""; NewWritableFile_ ""],
     Aborted (LOG_FATAL "Unknown output format: text")).
Proof.
  split.
  - apply (configuration_errors_order
             (Demo.with_model "" (Demo.world "" "piece" "string" ["pieces.txt"]))).
    reflexivity.
  - destruct (configuration_errors_order
                (Demo.world "" "piece" "text" ["pieces.txt"])) as [_ H].
    destruct (H eq_refl) as [_ Hrun].
    exact (Hrun Demo.vocab eq_refl).
Defined.

(** C6 as first stated fails: with the unknown input format xyz the model
    file is loaded and the output is opened before the format is
    checked. *)
Lemma unknown_format_checked_after_io :
  known_formats (Demo.world "" "xyz" "string" ["ids.txt"]) = false /\
  main (Demo.world "" "xyz" "string" ["ids.txt"])
  = ([Load_ "m.model"; SetDecodeExtraOptions_ ""; NewWritableFile_ ""],
     Aborted (LOG_FATAL "Unknown input format: xyz")) /\
  ~ (forall w, known_formats w = false ->
       forall e, In e (trace (main w)) -> is_file_access e = false).
Proof.
  split; [reflexivity |]. split; [reflexivity |].
  intros H.
  specialize (H (Demo.world "" "xyz" "string" ["ids.txt"]) eq_refl
                (Load_ "m.model")).
  cbn in H. discriminate H. left. reflexivity.
Qed.

(** ** Counting events *)

Lemma count_app (p : Event -> bool) (t1 t2 : list Event) :
  count p (t1 ++ t2) = (count p t1 + count p t2)%nat.
Proof.
  unfold count. rewrite List.filter_app, List.length_app. reflexivity.
Qed.

Lemma count_none (p : Event -> bool) (t : list Event) :
  (forall e, In e t -> p e = false) -> count p t = 0%nat.
Proof.
  unfold count. induction t as [| e t IH]; intros Hall; [reflexivity |].
  cbn [List.filter]. rewrite (Hall e) by (left; reflexivity).
  apply IH. intros e' He'. apply Hall. right. exact He'.
Qed.

(** Events of a sequence: those of its first part, then those of the
    rest when the first part returned. *)
Lemma bind_trace_In {A B} (m : M A) (k : A -> M B) (e : Event) :
  In e (trace (m ≫= k)) ->
  In e (trace m) \/ exists a, outcome m = Returned a /\ In e (trace (k a)).
Proof.
  rewrite trace_bind. intros H. apply in_app_or in H.
  destruct H as [H | H]; [left; exact H |].
  destruct (outcome m) as [a | d]; [| destruct H].
  right. exists a. split; [reflexivity | exact H].
Qed.

Lemma for_each_trace_In {A} (body : A -> M unit) (l : list A) (e : Event) :
  In e (trace (for_each l body)) ->
  exists x, In x l /\ In e (trace (body x)).
Proof.
  induction l as [| x l IH]; cbn [for_each]; intros H.
  - destruct H.
  - apply bind_trace_In in H. destruct H as [H | (_ & _ & H)].
    + exists x. split; [left; reflexivity | exact H].
    + destruct (IH H) as (y & Hy & He). exists y. split; [right |]; assumption.
Qed.

(** In a loop that returned, a count of events is the sum of the counts of
    the bodies; [items x] is what body [x] accounts for. *)
Lemma for_each_count {A B} (p : Event -> bool) (body : A -> M unit)
    (items : A -> list B) (l : list A) (u : unit) :
  outcome (for_each l body) = Returned u ->
  (forall x, In x l -> outcome (body x) = Returned tt ->
             count p (trace (body x)) = List.length (items x)) ->
  count p (trace (for_each l body)) = List.length (flat_map items l).
Proof.
  intros Hret Hbody.
  pose proof (for_each_returned_inv body l u Hret) as Hall.
  rewrite (for_each_returned body l Hall). cbn [trace fst].
  clear Hret. induction l as [| x l IH]; [reflexivity |].
  cbn [flat_map]. rewrite count_app, List.length_app.
  rewrite (Hbody x) by (try apply Hall; left; reflexivity).
  rewrite IH; [reflexivity | |].
  - intros y Hy. apply Hbody. right. exact Hy.
  - intros y Hy. apply Hall. right. exact Hy.
Qed.

Lemma length_flat_map_singleton {A} (l : list A) :
  List.length (flat_map (fun x => [x]) l) = List.length l.
Proof. induction l as [| x l IH]; cbn; congruence. Qed.

(** ** The closures *)

Lemma process_piece_string_run (w : World) (sp : Processor (model w))
    (pieces : list string) :
  process_piece_string w sp pieces
  = match Decode_pieces (model w) sp pieces with
    | Some detok =>
        ([Decode_pieces_ pieces to_detok; WriteLine_ detok], Returned tt)
    | None =>
        ([Decode_pieces_ pieces to_detok],
         Aborted (CHECK_OK_failed "sp.Decode(pieces, &detok)"))
    end.
Proof.
  unfold process_piece_string.
  destruct (Decode_pieces (model w) sp pieces); reflexivity.
Qed.

Lemma process_id_string_run (w : World) (sp : Processor (model w))
    (pieces : list string) :
  process_id_string w sp pieces
  = match Decode_ids (model w) sp (ToIds pieces) with
    | Some detok =>
        ([Decode_ids_ (ToIds pieces) to_detok; WriteLine_ detok], Returned tt)
    | None =>
        ([Decode_ids_ (ToIds pieces) to_detok],
         Aborted (CHECK_OK_failed "sp.Decode(ToIds(pieces), &detok)"))
    end.
Proof.
  unfold process_id_string.
  destruct (Decode_ids (model w) sp (ToIds pieces)); reflexivity.
Qed.

Lemma process_map_string_run (w : World) (sp : Processor (model w))
    (ids : list Z) :
  process_map_string w sp ids
  = match Decode_ids (model w) sp ids with
    | Some detok =>
        ([Decode_ids_ ids to_detok; WriteLine_ detok], Returned tt)
    | None =>
        ([Decode_ids_ ids to_detok],
         Aborted (CHECK_OK_failed "sp.Decode(ids, &detok)"))
    end.
Proof.
  unfold process_map_string.
  destruct (Decode_ids (model w) sp ids); reflexivity.
Qed.

Lemma process_piece_proto_run (w : World) (sp : Processor (model w))
    (pieces : list string) :
  process_piece_proto w sp pieces
  = ([Decode_pieces_ pieces to_spt],
     match Decode_pieces_spt (model w) sp pieces with
     | Some u => Returned u
     | None => Aborted (CHECK_OK_failed "sp.Decode(pieces, &spt)")
     end).
Proof.
  unfold process_piece_proto.
  destruct (Decode_pieces_spt (model w) sp pieces); reflexivity.
Qed.

Lemma process_id_proto_run (w : World) (sp : Processor (model w))
    (pieces : list string) :
  process_id_proto w sp pieces
  = ([Decode_ids_ (ToIds pieces) to_spt],
     match Decode_ids_spt (model w) sp (ToIds pieces) with
     | Some u => Returned u
     | None => Aborted (CHECK_OK_failed "sp.Decode(ToIds(pieces), &spt)")
     end).
Proof.
  unfold process_id_proto.
  destruct (Decode_ids_spt (model w) sp (ToIds pieces)); reflexivity.
Qed.

Lemma process_map_proto_run (w : World) (sp : Processor (model w))
    (ids : list Z) :
  process_map_proto w sp ids
  = ([Decode_ids_ ids to_spt],
     match Decode_ids_spt (model w) sp ids with
     | Some u => Returned u
     | None => Aborted (CHECK_OK_failed "sp.Decode(ids, &spt)")
     end).
Proof.
  unfold process_map_proto.
  destruct (Decode_ids_spt (model w) sp ids); reflexivity.
Qed.

Ltac closure_events H :=
  cbn in H;
  repeat match type of H with
         | _ \/ _ => destruct H as [H | H]
         | False => destruct H
         | _ = _ => subst
         end; auto.

Lemma process_piece_string_ok (w : World) (sp : Processor (model w)) :
  string_closure (process_piece_string w sp).
Proof.
  intros pieces. rewrite process_piece_string_run.
  destruct (Decode_pieces (model w) sp pieces); split;
    try (intros e He; closure_events He); try reflexivity; discriminate.
Qed.

Lemma process_id_string_ok (w : World) (sp : Processor (model w)) :
  string_closure (process_id_string w sp).
Proof.
  intros pieces. rewrite process_id_string_run.
  destruct (Decode_ids (model w) sp (ToIds pieces)); split;
    try (intros e He; closure_events He); try reflexivity; discriminate.
Qed.

Lemma process_map_string_ok (w : World) (sp : Processor (model w)) :
  string_closure (process_map_string w sp).
Proof.
  intros ids. rewrite process_map_string_run.
  destruct (Decode_ids (model w) sp ids); split;
    try (intros e He; closure_events He); try reflexivity; discriminate.
Qed.

Lemma process_piece_proto_ok (w : World) (sp : Processor (model w)) :
  proto_closure (process_piece_proto w sp).
Proof.
  intros pieces e He. rewrite process_piece_proto_run in He.
  closure_events He.
Qed.

Lemma process_id_proto_ok (w : World) (sp : Processor (model w)) :
  proto_closure (process_id_proto w sp).
Proof.
  intros pieces e He. rewrite process_id_proto_run in He.
  closure_events He.
Qed.

Lemma process_map_proto_ok (w : World) (sp : Processor (model w)) :
  proto_closure (process_map_proto w sp).
Proof.
  intros ids e He. rewrite process_map_proto_run in He.
  closure_events He.
Qed.

(** What the dispatch leaves in [process] and [process_int] when it
    returns: for "map" only [process_int] is set, for "piece" and "id" only
    [process], and the closure set is the one of the output format. *)
Lemma dispatch_returned (w : World) (sp : Processor (model w)) (c : Closures) :
  outcome (dispatch w sp) = Returned c ->
  dispatch w sp = ([], Returned c) /\
  ((FLAGS_input_format (flags w) = "map" /\ fst c = None /\
    exists g, snd c = Some g /\ closure_of_format w g) \/
   ((FLAGS_input_format (flags w) = "piece" \/
     FLAGS_input_format (flags w) = "id") /\
    FLAGS_input_format (flags w) <> "map" /\ snd c = None /\
    exists g, fst c = Some g /\ closure_of_format w g)).
Proof.
  intros Hret. split.
  { rewrite (M_eta (dispatch w sp)), dispatch_trace, Hret. reflexivity. }
  revert Hret. unfold dispatch, closure_of_format.
  destruct (String.eqb_spec (FLAGS_input_format (flags w)) "piece") as [Hp | Hp].
  { destruct (String.eqb_spec (FLAGS_output_format (flags w)) "string") as [Hs | Hs];
      [| destruct (String.eqb_spec (FLAGS_output_format (flags w)) "proto") as [Ho | Ho]];
      intros Hret; inversion Hret; subst c; right;
      (split; [left; exact Hp |]); (split; [rewrite Hp; discriminate |]);
      (split; [reflexivity |]); eexists; (split; [reflexivity |]).
    - left. split; [exact Hs | apply process_piece_string_ok].
    - right. split; [exact Ho | apply process_piece_proto_ok]. }
  destruct (String.eqb_spec (FLAGS_input_format (flags w)) "map") as [Hm | Hm].
  { destruct (String.eqb_spec (FLAGS_output_format (flags w)) "string") as [Hs | Hs];
      [| destruct (String.eqb_spec (FLAGS_output_format (flags w)) "proto") as [Ho | Ho]];
      intros Hret; inversion Hret; subst c; left;
      (split; [exact Hm |]); (split; [reflexivity |]);
      eexists; (split; [reflexivity |]).
    - left. split; [exact Hs | apply process_map_string_ok].
    - right. split; [exact Ho | apply process_map_proto_ok]. }
  destruct (String.eqb_spec (FLAGS_input_format (flags w)) "id") as [Hi | Hi].
  { destruct (String.eqb_spec (FLAGS_output_format (flags w)) "string") as [Hs | Hs];
      [| destruct (String.eqb_spec (FLAGS_output_format (flags w)) "proto") as [Ho | Ho]];
      intros Hret; inversion Hret; subst c; right;
      (split; [right; exact Hi |]); (split; [exact Hm |]);
      (split; [reflexivity |]); eexists; (split; [reflexivity |]).
    - left. split; [exact Hs | apply process_id_string_ok].
    - right. split; [exact Ho | apply process_id_proto_ok]. }
  intros Hret. discriminate Hret.
Qed.

(** Whatever the output format, a dispatched closure only decodes and
    writes lines. *)
Lemma closure_of_format_events {A} (w : World) (g : A -> M unit) (x : A)
    (e : Event) :
  closure_of_format w g -> In e (trace (g x)) ->
  is_Decode e = true \/ is_WriteLine e = true.
Proof.
  intros [[_ Hg] | [_ Hg]] He.
  - apply (Hg x). exact He.
  - left. apply (Hg x). exact He.
Qed.

(** ** The batch loops *)

(** The element loop performs no call. *)
Lemma read_elements_trace (k : nat) :
  forall (i : nat) (inFile : ifstream) (result : list Z),
    trace (read_elements k i inFile result) = [].
Proof.
  induction k as [| k IH]; intros i inFile result; cbn [read_elements].
  - reflexivity.
  - destruct (read sizeof_uint16_t inFile) as [[bs inFile'] |];
      [| reflexivity].
    destruct (uint16_of_bytes bs); [apply IH | reflexivity].
Qed.

(** The calls of the reader: it opens the file and reports a failure to
    open on the error channel, nothing else, however it ends. *)
Lemma readFileToVector_trace (fsys : FileSystem) (filename : string) :
  trace (readFileToVector fsys filename)
  = ifstream_ filename ::
    match open_ifstream fsys filename with
    | Some _ => []
    | None => [cerr_ ("Error: Unable to open the file: " ++ filename)%string]
    end.
Proof.
  unfold readFileToVector.
  rewrite trace_bind. cbn [emit trace outcome fst snd app].
  destruct (open_ifstream fsys filename)
    as [[bytes | end_pos allocates bytes] |].
  - rewrite read_elements_trace. reflexivity.
  - cbn zeta. destruct (vector_max_size <? _); [reflexivity |].
    destruct allocates; cbn [negb]; [| reflexivity].
    rewrite read_elements_trace. reflexivity.
  - reflexivity.
Qed.

Lemma text_line_run (g : list string -> M unit) (line : string) :
  text_line (Some g) line
  = (ReadLine_ line :: trace (g (StrSplit line " "%char)),
     outcome (g (StrSplit line " "%char))).
Proof.
  unfold text_line.
  rewrite (bind_returned (emit (ReadLine_ line)) _ [ReadLine_ line] tt eq_refl).
  reflexivity.
Qed.

Lemma text_file_run (w : World) (p : option (list string -> M unit))
    (filename : string) :
  text_file w p filename
  = match NewReadableFile (fs w) filename with
    | Some lines =>
        (NewReadableFile_ filename :: trace (for_each lines (text_line p)),
         outcome (for_each lines (text_line p)))
    | None =>
        ([NewReadableFile_ filename],
         Aborted (CHECK_OK_failed "input->status()"))
    end.
Proof.
  unfold text_file.
  rewrite (bind_returned (emit (NewReadableFile_ filename)) _
             [NewReadableFile_ filename] tt eq_refl).
  destruct (NewReadableFile (fs w) filename) as [lines |].
  - rewrite (bind_returned (CHECK_OK (Some lines) _) _ [] lines eq_refl).
    reflexivity.
  - reflexivity.
Qed.

(** One file of the "map" loop: the closure runs on what the reader
    returned, if it returned. *)
Lemma map_file_cases (w : World) (g : list Z -> M unit) (filename : string) :
  map_file w (Some g) filename
  = match outcome (readFileToVector (fs w) filename) with
    | Returned ids =>
        (trace (readFileToVector (fs w) filename) ++ trace (g ids),
         outcome (g ids))
    | Aborted d => (trace (readFileToVector (fs w) filename), Aborted d)
    end.
Proof.
  unfold map_file.
  rewrite (M_eta (_ ≫= _)), trace_bind, outcome_bind.
  destruct (outcome (readFileToVector (fs w) filename)) as [ids | d].
  - reflexivity.
  - rewrite app_nil_r. reflexivity.
Qed.

Lemma readFileToVector_trace_In (fsys : FileSystem) (filename : string)
    (e : Event) :
  In e (trace (readFileToVector fsys filename)) ->
  e = ifstream_ filename \/
  e = cerr_ ("Error: Unable to open the file: " ++ filename)%string.
Proof.
  rewrite readFileToVector_trace.
  destruct (open_ifstream fsys filename); cbn; intuition congruence.
Qed.

(** In a text file read by a "string" closure to its end, as many lines
    were written as were read, one for each line of the file. *)
Lemma text_file_counts (w : World) (g : list string -> M unit)
    (filename : string) :
  string_closure g ->
  outcome (text_file w (Some g) filename) = Returned tt ->
  count is_WriteLine (trace (text_file w (Some g) filename))
  = List.length (lines_of (fs w) filename) /\
  count is_ReadLine (trace (text_file w (Some g) filename))
  = List.length (lines_of (fs w) filename).
Proof.
  intros Hg. rewrite text_file_run. unfold lines_of.
  destruct (NewReadableFile (fs w) filename) as [lines |];
    [| discriminate].
  cbn [trace outcome fst snd]. intros Hret.
  change (NewReadableFile_ filename :: ?t) with ([NewReadableFile_ filename] ++ t).
  rewrite !count_app.
  rewrite <- (length_flat_map_singleton lines) at 1 2.
  split.
  - rewrite (for_each_count is_WriteLine _ (fun x => [x]) lines tt Hret);
      [reflexivity |].
    intros line _. rewrite text_line_run. cbn [trace outcome fst snd].
    intros Hline.
    change (ReadLine_ line :: ?t) with ([ReadLine_ line] ++ t).
    rewrite count_app. destruct (Hg (StrSplit line " "%char)) as [_ Hone].
    rewrite (Hone Hline). reflexivity.
  - rewrite (for_each_count is_ReadLine _ (fun x => [x]) lines tt Hret);
      [reflexivity |].
    intros line _. rewrite text_line_run. cbn [trace outcome fst snd].
    intros _.
    change (ReadLine_ line :: ?t) with ([ReadLine_ line] ++ t).
    rewrite count_app. destruct (Hg (StrSplit line " "%char)) as [Hev _].
    rewrite (count_none is_ReadLine (trace (g _))); [reflexivity |].
    intros e He. destruct (Hev e He) as [H | H]; destruct e; try discriminate H;
      reflexivity.
Qed.

(** For a binary file handed to a "string" closure that returned, one line
    was written. *)
Lemma map_file_counts (w : World) (g : list Z -> M unit) (filename : string) :
  string_closure g ->
  outcome (map_file w (Some g) filename) = Returned tt ->
  count is_WriteLine (trace (map_file w (Some g) filename)) = 1%nat.
Proof.
  intros Hg. rewrite map_file_cases.
  destruct (outcome (readFileToVector (fs w) filename)) as [ids | d];
    [| discriminate].
  cbn [trace outcome fst snd]. intros Hret.
  rewrite count_app. destruct (Hg ids) as [_ Hone]. rewrite (Hone Hret).
  rewrite (count_none is_WriteLine (trace (readFileToVector _ _)));
    [reflexivity |].
  intros e He. destruct (readFileToVector_trace_In _ _ _ He) as [-> | ->];
    reflexivity.
Qed.

(** The events of one file of a batch: opening it, reading its lines, the
    reader's error message, and the events of the closure. *)
Lemma text_file_trace_In (w : World) (g : list string -> M unit)
    (filename : string) (e : Event) :
  In e (trace (text_file w (Some g) filename)) ->
  e = NewReadableFile_ filename \/ is_ReadLine e = true \/
  exists lines x,
    NewReadableFile (fs w) filename = Some lines /\ In e (trace (g x)).
Proof.
  rewrite text_file_run.
  destruct (NewReadableFile (fs w) filename) as [lines |]; cbn [trace fst].
  - intros [<- | He]; [left; reflexivity | right].
    apply for_each_trace_In in He. destruct He as (line & _ & He).
    rewrite text_line_run in He. cbn [trace fst] in He.
    destruct He as [<- | He]; [left; reflexivity | right].
    exists lines, (StrSplit line " "%char). split; [reflexivity | exact He].
  - intros [<- | []]. left. reflexivity.
Qed.

Lemma map_file_trace_In (w : World) (g : list Z -> M unit)
    (filename : string) (e : Event) :
  In e (trace (map_file w (Some g) filename)) ->
  e = ifstream_ filename \/
  e = cerr_ ("Error: Unable to open the file: " ++ filename)%string \/
  exists x, In e (trace (g x)).
Proof.
  rewrite map_file_cases.
  destruct (outcome (readFileToVector (fs w) filename)) as [ids | d];
    cbn [trace fst]; intros He.
  - apply in_app_or in He. destruct He as [He | He].
    + destruct (readFileToVector_trace_In _ _ _ He); auto.
    + right. right. exists ids. exact He.
  - destruct (readFileToVector_trace_In _ _ _ He); auto.
Qed.

(** ** Whole runs *)

Lemma batch_text (w : World) (c : Closures) :
  FLAGS_input_format (flags w) <> "map" ->
  batch w c = for_each (rest_args w) (text_file w (fst c)).
Proof.
  intros Hm. unfold batch. destruct c as [p pi].
  destruct (String.eqb_spec (FLAGS_input_format (flags w)) "map");
    [contradiction | reflexivity].
Qed.

Lemma batch_map (w : World) (c : Closures) :
  FLAGS_input_format (flags w) = "map" ->
  batch w c = for_each (rest_args w) (map_file w (snd c)).
Proof.
  intros Hm. unfold batch. destruct c as [p pi]. rewrite Hm. reflexivity.
Qed.

(** A run is its start, then the dispatch (which performs no call), then
    the batch. *)
Lemma main_trace_In (w : World) (e : Event) :
  In e (trace (main w)) ->
  In e (startup_events w) \/
  exists sp c,
    outcome (startup w) = Returned sp /\
    outcome (dispatch w sp) = Returned c /\
    In e (trace (batch w c)).
Proof.
  destruct (outcome (startup w)) as [sp | d] eqn:Hst.
  2: { rewrite (main_startup_aborted w d Hst). cbn [trace fst].
       intros He. left. apply startup_trace_In. exact He. }
  destruct (known_formats w) eqn:Hfmt.
  2: { rewrite (main_unknown_format w sp Hst Hfmt). cbn [trace fst]. auto. }
  destruct (dispatch_known w sp Hfmt) as (c & Hc & _).
  rewrite (main_known_formats w sp c Hst Hc). cbn [trace fst].
  intros He. apply in_app_or in He. destruct He as [He | He]; [left; exact He |].
  right. exists sp, c. rewrite Hc. auto.
Qed.

(** A run that returned passed the start and the dispatch and ran the
    batch to its end. *)
Lemma main_returned_inv (w : World) (z : Z) :
  outcome (main w) = Returned z ->
  exists sp c,
    outcome (startup w) = Returned sp /\
    outcome (dispatch w sp) = Returned c /\
    outcome (batch w c) = Returned tt /\
    main w = (startup_events w ++ trace (batch w c), Returned 0).
Proof.
  destruct (outcome (startup w)) as [sp | d] eqn:Hst.
  2: { rewrite (main_startup_aborted w d Hst). discriminate. }
  destruct (known_formats w) eqn:Hfmt.
  2: { rewrite (main_unknown_format w sp Hst Hfmt). discriminate. }
  destruct (dispatch_known w sp Hfmt) as (c & Hc & _).
  rewrite (main_known_formats w sp c Hst Hc). cbn [outcome snd].
  destruct (outcome (batch w c)) as [[] | d] eqn:Hb; [| discriminate].
  intros _. exists sp, c. rewrite Hc. auto.
Qed.

(** ** Output lines *)

Lemma startup_events_count (w : World) (p : Event -> bool) :
  (forall s, p (Load_ s) = false) ->
  (forall s, p (SetDecodeExtraOptions_ s) = false) ->
  (forall s, p (NewWritableFile_ s) = false) ->
  count p (startup_events w) = 0%nat.
Proof.
  intros H1 H2 H3. unfold startup_events, count. cbn.
  rewrite H1, H2, H3. reflexivity.
Qed.

Lemma closure_of_format_string {A} (w : World) (g : A -> M unit) :
  FLAGS_output_format (flags w) = "string" ->
  closure_of_format w g -> string_closure g.
Proof.
  intros Hs [[_ Hg] | [Hp _]]; [exact Hg |].
  rewrite Hs in Hp. discriminate Hp.
Qed.

Lemma closure_of_format_proto {A} (w : World) (g : A -> M unit) :
  FLAGS_output_format (flags w) = "proto" ->
  closure_of_format w g -> proto_closure g.
Proof.
  intros Hp [[Hs _] | [_ Hg]]; [| exact Hg].
  rewrite Hp in Hs. discriminate Hs.
Qed.

Lemma proto_closure_no_write {A} (g : A -> M unit) (x : A) (e : Event) :
  proto_closure g -> In e (trace (g x)) -> is_WriteLine e = false.
Proof.
  intros Hg He. specialize (Hg x e He). destruct e; try discriminate Hg;
    reflexivity.
Qed.

(** With the output format "proto" no run writes a line, however it
    ends. *)
Lemma main_proto_no_write (w : World) (e : Event) :
  FLAGS_output_format (flags w) = "proto" ->
  In e (trace (main w)) -> is_WriteLine e = false.
Proof.
  intros Hp He. apply main_trace_In in He.
  destruct He as [He | (sp & c & _ & Hc & He)].
  { unfold startup_events in He. cbn in He.
    destruct He as [<- | [<- | [<- | []]]]; reflexivity. }
  destruct (dispatch_returned w sp c Hc)
    as [_ [(Hm & _ & g & Hg & Hfmt) | (_ & Hm & _ & g & Hg & Hfmt)]].
  - rewrite (batch_map w c Hm), Hg in He.
    apply for_each_trace_In in He. destruct He as (f & _ & He).
    apply map_file_trace_In in He.
    destruct He as [-> | [-> | (x & He)]]; try reflexivity.
    exact (proto_closure_no_write g x e (closure_of_format_proto w g Hp Hfmt) He).
  - rewrite (batch_text w c Hm), Hg in He.
    apply for_each_trace_In in He. destruct He as (f & _ & He).
    apply text_file_trace_In in He.
    destruct He as [-> | [He | (lines & x & _ & He)]]; try reflexivity.
    + destruct e; try discriminate He; reflexivity.
    + exact (proto_closure_no_write g x e
               (closure_of_format_proto w g Hp Hfmt) He).
Qed.

(** C7.  With the output format "string" every invocation of the selected
    closure that returns has written exactly one line; hence a run that
    completes has written as many lines as it read from its text inputs
    (all the lines of all the input sources), and one line per input file
    for "map".  With the output format "proto" no invocation writes a line
    and the run writes none. *)
Theorem output_line_counts (w : World) :
  (forall sp c, outcome (dispatch w sp) = Returned c ->
     (FLAGS_output_format (flags w) = "string" ->
        (forall g x, fst c = Some g -> outcome (g x) = Returned tt ->
           count is_WriteLine (trace (g x)) = 1%nat) /\
        (forall g x, snd c = Some g -> outcome (g x) = Returned tt ->
           count is_WriteLine (trace (g x)) = 1%nat)) /\
     (FLAGS_output_format (flags w) = "proto" ->
        (forall g x, fst c = Some g ->
           count is_WriteLine (trace (g x)) = 0%nat) /\
        (forall g x, snd c = Some g ->
           count is_WriteLine (trace (g x)) = 0%nat))) /\
  (FLAGS_output_format (flags w) = "string" ->
   outcome (main w) = Returned 0 ->
     (FLAGS_input_format (flags w) <> "map" ->
        count is_WriteLine (trace (main w))
        = count is_ReadLine (trace (main w)) /\
        count is_ReadLine (trace (main w)) = List.length (input_lines w)) /\
     (FLAGS_input_format (flags w) = "map" ->
        count is_WriteLine (trace (main w)) = List.length (rest_args w))) /\
  (FLAGS_output_format (flags w) = "proto" ->
   count is_WriteLine (trace (main w)) = 0%nat).
Proof.
  split; [| split].
  - intros sp c Hc.
    destruct (dispatch_returned w sp c Hc)
      as [_ [(_ & Hp & g & Hg & Hfmt) | (_ & _ & Hpi & g & Hg & Hfmt)]].
    + split; intros Hout; split; intros g' x Hg'; try congruence.
      * assert (g' = g) as -> by congruence.
        apply (closure_of_format_string w g Hout Hfmt x).
      * assert (g' = g) as -> by congruence.
        apply count_none. intros e He.
        exact (proto_closure_no_write g x e
                 (closure_of_format_proto w g Hout Hfmt) He).
    + split; intros Hout; split; intros g' x Hg'; try congruence.
      * assert (g' = g) as -> by congruence.
        apply (closure_of_format_string w g Hout Hfmt x).
      * assert (g' = g) as -> by congruence.
        apply count_none. intros e He.
        exact (proto_closure_no_write g x e
                 (closure_of_format_proto w g Hout Hfmt) He).
  - intros Hout Hret.
    destruct (main_returned_inv w 0 Hret) as (sp & c & _ & Hc & Hb & Hrun).
    rewrite Hrun. cbn [trace fst]. rewrite !count_app.
    rewrite !startup_events_count by reflexivity. cbn [Nat.add].
    destruct (dispatch_returned w sp c Hc)
      as [_ [(Hm & _ & g & Hg & Hfmt) | (_ & Hm & _ & g & Hg & Hfmt)]].
    + split; [intros Hne; contradiction |]. intros _.
      pose proof (closure_of_format_string w g Hout Hfmt) as Hstr.
      rewrite (batch_map w c Hm), Hg in Hb |- *.
      rewrite (for_each_count is_WriteLine _ (fun f => [f]) _ tt Hb).
      * apply length_flat_map_singleton.
      * intros f _ Hf. apply (map_file_counts w g f Hstr Hf).
    + split; [intros _ | intros Heq; contradiction].
      pose proof (closure_of_format_string w g Hout Hfmt) as Hstr.
      rewrite (batch_text w c Hm), Hg in Hb |- *.
      rewrite (for_each_count is_WriteLine _ (lines_of (fs w)) _ tt Hb).
      * rewrite (for_each_count is_ReadLine _ (lines_of (fs w)) _ tt Hb).
        -- split; reflexivity.
        -- intros f _ Hf. apply (text_file_counts w g f Hstr Hf).
      * intros f _ Hf. apply (text_file_counts w g f Hstr Hf).
  - intros Hp. apply count_none. intros e He.
    exact (main_proto_no_write w e Hp He).
Qed.

Lemma output_line_counts_witness :
  (count is_WriteLine
     (trace (main (Demo.world "" "piece" "string" ["pieces.txt"; "pieces.txt"])))
   = count is_ReadLine
       (trace (main (Demo.world "" "piece" "string"
                       ["pieces.txt"; "pieces.txt"]))) /\
   count is_ReadLine
     (trace (main (Demo.world "" "piece" "string" ["pieces.txt"; "pieces.txt"])))
   = 4%nat) /\
  count is_WriteLine
    (trace (main (Demo.world "" "map" "string" ["small.bin"; "nope.bin"])))
  = 2%nat /\
  count is_WriteLine
    (trace (main (Demo.world "" "id" "proto" ["ids.txt"])))
  = 0%nat.
Proof.
  split; [| split].
  - destruct (output_line_counts
                (Demo.world "" "piece" "string" ["pieces.txt"; "pieces.txt"]))
      as (_ & Hrun & _).
    destruct (Hrun eq_refl eq_refl) as [Htext _].
    apply Htext. discriminate.
  - destruct (output_line_counts
                (Demo.world "" "map" "string" ["small.bin"; "nope.bin"]))
      as (_ & Hrun & _).
    destruct (Hrun eq_refl eq_refl) as [_ Hmap].
    apply Hmap. reflexivity.
  - destruct (output_line_counts (Demo.world "" "id" "proto" ["ids.txt"]))
      as (_ & _ & Hproto).
    apply Hproto. reflexivity.
Defined.

(** ** Inputs that do not open *)

(** In the text loop, the first input that does not open ends the run:
    nothing follows the attempt to open it. *)
Lemma text_loop_open_failure (w : World) (g : list string -> M unit)
    (filename : string) (l : list string) :
  closure_of_format w g ->
  NewReadableFile (fs w) filename = None ->
  In (NewReadableFile_ filename) (trace (for_each l (text_file w (Some g)))) ->
  outcome (for_each l (text_file w (Some g)))
  = Aborted (CHECK_OK_failed "input->status()") /\
  exists t, trace (for_each l (text_file w (Some g)))
            = t ++ [NewReadableFile_ filename].
Proof.
  intros Hg Hnone. induction l as [| x l IH]; cbn [for_each]; intros Hin.
  - destruct Hin.
  - rewrite trace_bind, outcome_bind in *.
    pose proof (text_file_run w (Some g) x) as Hx.
    destruct (NewReadableFile (fs w) x) as [lines |] eqn:Hopen.
    + assert (Hnot : ~ In (NewReadableFile_ filename)
                         (trace (text_file w (Some g) x))).
      { intros H. apply text_file_trace_In in H.
        destruct H as [H | [H | (ls & y & _ & H)]].
        - injection H as ->. congruence.
        - discriminate H.
        - destruct (closure_of_format_events w g y _ Hg H) as [H' | H'];
            discriminate H'. }
      apply in_app_or in Hin. destruct Hin as [Hin | Hin]; [contradiction |].
      destruct (outcome (text_file w (Some g) x)) as [[] | d]; [| destruct Hin].
      destruct (IH Hin) as (Hout & t & Ht).
      split; [exact Hout |].
      exists (trace (text_file w (Some g) x) ++ t).
      rewrite Ht, app_assoc. reflexivity.
    + rewrite Hx in *. cbn [trace outcome fst snd] in *.
      rewrite app_nil_r in *. destruct Hin as [Hin | []].
      injection Hin as ->. split; [reflexivity |]. exists []. reflexivity.
Qed.

(** C2.  An input that does not open is treated differently by the two
    readers.  With "piece" or "id", a run that tries to open it ends
    there, fatally, with the failed status check.  The binary id reader
    writes one message to the error channel and returns the empty
    sequence. *)
Theorem open_failure_asymmetry (w : World) (filename : string) :
  (NewReadableFile (fs w) filename = None ->
   FLAGS_input_format (flags w) = "piece" \/
   FLAGS_input_format (flags w) = "id" ->
   In (NewReadableFile_ filename) (trace (main w)) ->
   outcome (main w) = Aborted (CHECK_OK_failed "input->status()") /\
   exists t, trace (main w) = t ++ [NewReadableFile_ filename]) /\
  (open_ifstream (fs w) filename = None ->
   readFileToVector (fs w) filename
   = ([ifstream_ filename;
       cerr_ ("Error: Unable to open the file: " ++ filename)%string],
      Returned [])).
Proof.
  split.
  - intros Hnone Hfmt Hin.
    destruct (main_trace_In w _ Hin) as [Hs | (sp & c & Hst & Hc & Hb)].
    { unfold startup_events in Hs. cbn in Hs.
      destruct Hs as [Hs | [Hs | [Hs | []]]]; discriminate Hs. }
    destruct (dispatch_returned w sp c Hc)
      as [Hd [(Hm & _) | (_ & Hm & _ & g & Hg & Hof)]].
    { destruct Hfmt as [Hfmt | Hfmt]; rewrite Hfmt in Hm; discriminate Hm. }
    rewrite (main_known_formats w sp c Hst Hd). cbn [trace outcome fst snd].
    rewrite (batch_text w c Hm), Hg in Hb |- *.
    destruct (text_loop_open_failure w g filename (rest_args w) Hof Hnone Hb)
      as (Hout & t & Ht).
    rewrite Hout, Ht. split; [reflexivity |].
    exists (startup_events w ++ t). rewrite app_assoc. reflexivity.
  - intros Hnone. unfold readFileToVector. rewrite Hnone. reflexivity.
Qed.

Lemma open_failure_asymmetry_witness :
  (outcome (main (Demo.world "" "piece" "string" ["pieces.txt"; "nope"; "ids.txt"]))
   = Aborted (CHECK_OK_failed "input->status()") /\
   exists t, trace (main (Demo.world "" "piece" "string"
                            ["pieces.txt"; "nope"; "ids.txt"]))
             = t ++ [NewReadableFile_ "nope"]) /\
  readFileToVector Demo.demo_fs "nope"
  = ([ifstream_ "nope"; cerr_ "Error: Unable to open the file: nope"],
     Returned []).
Proof.
  split.
  - apply (open_failure_asymmetry
             (Demo.world "" "piece" "string" ["pieces.txt"; "nope"; "ids.txt"])
             "nope").
    + reflexivity.
    + left. reflexivity.
    + vm_compute. repeat (first [left; reflexivity | right]).
  - apply (open_failure_asymmetry
             (Demo.world "" "piece" "string" ["pieces.txt"; "nope"; "ids.txt"])
             "nope").
    reflexivity.
Defined.

(** ** Empty requests *)

Lemma readFileToVector_unopenable (fsys : FileSystem) (filename : string) :
  open_ifstream fsys filename = None ->
  readFileToVector fsys filename
  = ([ifstream_ filename;
      cerr_ ("Error: Unable to open the file: " ++ filename)%string],
     Returned []).
Proof.
  intros Hnone. unfold readFileToVector. rewrite Hnone. reflexivity.
Qed.

Lemma dispatch_returned_known (w : World) (sp : Processor (model w))
    (c : Closures) :
  outcome (dispatch w sp) = Returned c -> known_formats w = true.
Proof.
  intros Hret. destruct (known_formats w) eqn:Hfmt; [reflexivity |].
  rewrite (dispatch_unknown w sp Hfmt) in Hret. discriminate Hret.
Qed.

(** The closures of a dispatch that returned, by name. *)
Lemma dispatch_returned_closures (w : World) (sp : Processor (model w))
    (c : Closures) :
  outcome (dispatch w sp) = Returned c ->
  if String.eqb (FLAGS_input_format (flags w)) "map"
  then fst c = None /\
       snd c = Some (if String.eqb (FLAGS_output_format (flags w)) "string"
                     then process_map_string w sp
                     else process_map_proto w sp)
  else snd c = None /\
       fst c = Some (if String.eqb (FLAGS_input_format (flags w)) "piece"
                     then if String.eqb (FLAGS_output_format (flags w)) "string"
                          then process_piece_string w sp
                          else process_piece_proto w sp
                     else if String.eqb (FLAGS_output_format (flags w)) "string"
                          then process_id_string w sp
                          else process_id_proto w sp).
Proof.
  intros Hret.
  destruct (dispatch_known w sp (dispatch_returned_known w sp c Hret))
    as (c' & Hc' & Hshape).
  rewrite Hc' in Hret. injection Hret as ->. exact Hshape.
Qed.





(** ** No input source given *)

Lemma rest_args_none_given (w : World) :
  FLAGS_input (flags w) = EmptyString -> tail (argv w) = [] ->
  rest_args w = [EmptyString].
Proof.
  intros Hin Hpos. unfold rest_args. apply empty_iff in Hin.
  rewrite Hin, push_argv_positional, Hpos. reflexivity.
Qed.

(** With "map" no run opens a line-oriented input or reads a line. *)
Lemma map_never_reads_lines (w : World) (e : Event) :
  FLAGS_input_format (flags w) = "map" ->
  In e (trace (main w)) ->
  is_ReadLine e = false /\ forall path, e <> NewReadableFile_ path.
Proof.
  intros Hm Hin.
  destruct (main_trace_In w e Hin) as [Hs | (sp & c & _ & Hc & Hb)].
  { unfold startup_events in Hs. cbn in Hs.
    destruct Hs as [<- | [<- | [<- | []]]]; split; try reflexivity;
      discriminate. }
  destruct (dispatch_returned w sp c Hc)
    as [_ [(_ & _ & g & Hg & Hfmt) | (_ & Hne & _)]]; [| contradiction].
  rewrite (batch_map w c Hm), Hg in Hb.
  apply for_each_trace_In in Hb. destruct Hb as (f & _ & He).
  apply map_file_trace_In in He.
  destruct He as [-> | [-> | (x & He)]];
    try (split; [reflexivity | discriminate]).
  destruct (closure_of_format_events w g x e Hfmt He) as [H | H];
    destruct e; try discriminate H; split; try reflexivity; discriminate.
Qed.

(** C8, at the failing input.  With no input flag and no positional
    argument the only input source is the empty path.  The text formats
    hand it to [NewReadableFile], which opens standard input for it.  With
    "map" it is handed to [std::ifstream], which cannot open the empty
    path: the run never opens standard input and reads no line of it,
    whatever it holds; it decodes the empty id sequence and, with the
    output format "string", writes one line and returns 0. *)
Theorem empty_path_is_not_standard_input_for_map (w : World)
    (sp : Processor (model w)) :
  FLAGS_input (flags w) = EmptyString ->
  tail (argv w) = [] ->
  outcome (startup w) = Returned sp ->
  known_formats w = true ->
  rest_args w = [EmptyString] /\
  (FLAGS_input_format (flags w) <> "map" ->
   exists t, trace (main w)
             = startup_events w ++ NewReadableFile_ EmptyString :: t) /\
  (FLAGS_input_format (flags w) = "map" ->
   open_ifstream (fs w) EmptyString = None ->
   (forall e, In e (trace (main w)) ->
      is_ReadLine e = false /\ forall path, e <> NewReadableFile_ path) /\
   (forall detok,
      FLAGS_output_format (flags w) = "string" ->
      Decode_ids (model w) sp [] = Some detok ->
      main w
      = (startup_events w
         ++ [ifstream_ EmptyString;
             cerr_ "Error: Unable to open the file: ";
             Decode_ids_ [] to_detok; WriteLine_ detok],
         Returned 0))).
Proof.
  intros Hin Hpos Hst Hfmt.
  pose proof (rest_args_none_given w Hin Hpos) as Hrest.
  destruct (dispatch_known w sp Hfmt) as (c & Hd & _).
  pose proof (f_equal outcome Hd) as Hc. cbn [outcome snd] in Hc.
  split; [exact Hrest |]. split.
  - intros Hm. rewrite (main_known_formats w sp c Hst Hd). cbn [trace fst].
    rewrite (batch_text w c Hm), Hrest. cbn [for_each].
    rewrite trace_bind, text_file_run.
    destruct (NewReadableFile (fs w) EmptyString) as [lines |];
      cbn [trace fst app]; eexists; reflexivity.
  - intros Hm Hnone. split; [intros e; apply (map_never_reads_lines w e Hm) |].
    intros detok Hs Hdec.
    pose proof (dispatch_returned_closures w sp c Hc) as Hcl.
    rewrite Hm, Hs in Hcl. cbn [String.eqb Ascii.eqb Bool.eqb] in Hcl.
    destruct Hcl as [_ Hg].
    rewrite (main_known_formats w sp c Hst Hd).
    rewrite (batch_map w c Hm), Hrest, Hg. cbn [for_each].
    unfold map_file.
    rewrite (bind_returned _ _ _ _
               (readFileToVector_unopenable (fs w) EmptyString Hnone)).
    cbn [call]. rewrite process_map_string_run, Hdec. reflexivity.
Qed.

Lemma empty_path_is_not_standard_input_for_map_witness :
  NewReadableFile Piped.piped_fs EmptyString = Some ["Hello _world"; "!"] /\
  main (Piped.piped_world "map")
  = ([Load_ "m.model"; SetDecodeExtraOptions_ EmptyString;
      NewWritableFile_ EmptyString; ifstream_ EmptyString;
      cerr_ "Error: Unable to open the file: ";
      Decode_ids_ [] to_detok; WriteLine_ EmptyString],
     Returned 0) /\
  exists t, trace (main (Piped.piped_world "piece"))
            = [Load_ "m.model"; SetDecodeExtraOptions_ EmptyString;
               NewWritableFile_ EmptyString; NewReadableFile_ EmptyString]
              ++ t.
Proof.
  split; [reflexivity |]. split.
  - destruct (empty_path_is_not_standard_input_for_map
                (Piped.piped_world "map") Demo.vocab
                eq_refl eq_refl eq_refl eq_refl) as (_ & _ & Hmap).
    destruct (Hmap eq_refl eq_refl) as [_ Hrun].
    exact (Hrun EmptyString eq_refl eq_refl).
  - destruct (empty_path_is_not_standard_input_for_map
                (Piped.piped_world "piece") Demo.vocab
                eq_refl eq_refl eq_refl eq_refl) as (_ & Htext & _).
    destruct Htext as [t Ht]; [discriminate |].
    exists t. exact Ht.
Defined.

(** ** Determinism *)

Lemma bind_ext {A B} (m : M A) (k1 k2 : A -> M B) :
  (forall a, outcome m = Returned a -> k1 a = k2 a) ->
  m ≫= k1 = m ≫= k2.
Proof.
  intros Hk. destruct m as [t [a | d]]; [| reflexivity].
  unfold mbind, M_bind, bind. rewrite (Hk a eq_refl). reflexivity.
Qed.

Lemma for_each_ext {A} (body1 body2 : A -> M unit) (l : list A) :
  (forall x, In x l -> body1 x = body2 x) ->
  for_each l body1 = for_each l body2.
Proof.
  induction l as [| x l IH]; intros Hb; [reflexivity |].
  cbn [for_each]. rewrite (Hb x) by (left; reflexivity).
  apply bind_ext. intros _ _. apply IH.
  intros y Hy. apply Hb. right. exact Hy.
Qed.

Lemma startup_same (fl : Flags) (args : list string) (m : Model)
    (fs1 fs2 : FileSystem) :
  NewWritableFile fs1 (FLAGS_output fl) = NewWritableFile fs2 (FLAGS_output fl) ->
  startup {| flags := fl; argv := args; model := m; fs := fs1 |}
  = startup {| flags := fl; argv := args; model := m; fs := fs2 |}.
Proof.
  intros Hout. unfold startup. cbn [flags argv model fs].
  rewrite Hout. reflexivity.
Qed.

Lemma batch_same (fl : Flags) (args : list string) (m : Model)
    (fs1 fs2 : FileSystem) (c : Closures) :
  (forall f,
     In f (rest_args {| flags := fl; argv := args; model := m; fs := fs1 |}) ->
     NewReadableFile fs1 f = NewReadableFile fs2 f /\
     open_ifstream fs1 f = open_ifstream fs2 f) ->
  batch {| flags := fl; argv := args; model := m; fs := fs1 |} c
  = batch {| flags := fl; argv := args; model := m; fs := fs2 |} c.
Proof.
  intros Hin. unfold batch. destruct c as [p pi]. cbn [flags].
  change (rest_args {| flags := fl; argv := args; model := m; fs := fs2 |})
    with (rest_args {| flags := fl; argv := args; model := m; fs := fs1 |}).
  destruct (String.eqb (FLAGS_input_format fl) "map");
    apply for_each_ext; intros f Hf;
    destruct (Hin f Hf) as [Htext Hbin].
  - unfold map_file, readFileToVector. cbn [fs].
    rewrite Hbin. reflexivity.
  - rewrite !text_file_run. cbn [fs]. rewrite Htext. reflexivity.
Qed.

Lemma main_same (fl : Flags) (args : list string) (m : Model)
    (fs1 fs2 : FileSystem) :
  NewWritableFile fs1 (FLAGS_output fl) = NewWritableFile fs2 (FLAGS_output fl) ->
  (forall f,
     In f (rest_args {| flags := fl; argv := args; model := m; fs := fs1 |}) ->
     NewReadableFile fs1 f = NewReadableFile fs2 f /\
     open_ifstream fs1 f = open_ifstream fs2 f) ->
  main {| flags := fl; argv := args; model := m; fs := fs1 |}
  = main {| flags := fl; argv := args; model := m; fs := fs2 |}.
Proof.
  intros Hout Hin. unfold main.
  rewrite (startup_same fl args m fs1 fs2 Hout).
  apply bind_ext. intros sp _.
  change (dispatch {| flags := fl; argv := args; model := m; fs := fs1 |} sp)
    with (dispatch {| flags := fl; argv := args; model := m; fs := fs2 |} sp).
  apply bind_ext. intros c _.
  rewrite (batch_same fl args m fs1 fs2 c Hin). reflexivity.
Qed.

(** C9.  Two runs with the same flags, the same arguments and the same
    model, whose output opens alike and whose input sources have the same
    contents, perform the same calls, end alike and leave the same bytes in
    the output. *)
Theorem main_deterministic (fl : Flags) (args : list string) (m : Model)
    (fs1 fs2 : FileSystem) :
  NewWritableFile fs1 (FLAGS_output fl) = NewWritableFile fs2 (FLAGS_output fl) ->
  (forall f,
     In f (rest_args {| flags := fl; argv := args; model := m; fs := fs1 |}) ->
     NewReadableFile fs1 f = NewReadableFile fs2 f /\
     open_ifstream fs1 f = open_ifstream fs2 f) ->
  main {| flags := fl; argv := args; model := m; fs := fs1 |}
  = main {| flags := fl; argv := args; model := m; fs := fs2 |} /\
  output_written
    (trace (main {| flags := fl; argv := args; model := m; fs := fs1 |}))
  = output_written
      (trace (main {| flags := fl; argv := args; model := m; fs := fs2 |})).
Proof.
  intros Hout Hin.
  pose proof (main_same fl args m fs1 fs2 Hout Hin) as Hsame.
  split; [exact Hsame |]. rewrite Hsame. reflexivity.
Qed.

Lemma main_deterministic_witness :
  main {| flags := Demo.demo_flags "" "id" "string";
          argv := ["spm_decode"; "ids.txt"];
          model := Demo.demo_model; fs := Demo.demo_fs |}
  = main {| flags := Demo.demo_flags "" "id" "string";
            argv := ["spm_decode"; "ids.txt"];
            model := Demo.demo_model; fs := Demo.demo_fs_more |} /\
  output_written
    (trace (main {| flags := Demo.demo_flags "" "id" "string";
                    argv := ["spm_decode"; "ids.txt"];
                    model := Demo.demo_model; fs := Demo.demo_fs |}))
  = output_written
      (trace (main {| flags := Demo.demo_flags "" "id" "string";
                      argv := ["spm_decode"; "ids.txt"];
                      model := Demo.demo_model; fs := Demo.demo_fs_more |})).
Proof.
  apply (main_deterministic (Demo.demo_flags "" "id" "string")
           ["spm_decode"; "ids.txt"] Demo.demo_model
           Demo.demo_fs Demo.demo_fs_more).
  - reflexivity.
  - intros f [<- | []]. split; reflexivity.
Defined.

(** * Further facts *)

(** ** The reader as a function of the file *)

Lemma uint16_pairs_length (n : nat) :
  forall bytes : list byte,
    (List.length bytes <= n)%nat ->
    List.length (uint16_pairs bytes) = (List.length bytes / 2)%nat.
Proof.
  induction n as [| n IH]; intros bytes Hn.
  - destruct bytes; [reflexivity | cbn in Hn; lia].
  - destruct bytes as [| b0 [| b1 rest]]; try reflexivity.
    cbn [uint16_pairs List.length].
    rewrite IH by (cbn in Hn; lia).
    change (S (S (List.length rest))) with (1 * 2 + List.length rest)%nat.
    rewrite Nat.div_add_l by lia. lia.
Qed.

Lemma uint16_pairs_lookup (i : nat) :
  forall (bytes : list byte) (v : Z),
    element_at bytes i v -> uint16_pairs bytes !! i = Some v.
Proof.
  induction i as [| i IH]; intros bytes v (b0 & b1 & H0 & H1 & ->).
  - change (2 * 0)%nat with 0%nat in H0.
    change (2 * 0 + 1)%nat with 1%nat in H1.
    destruct bytes as [| c0 [| c1 rest]]; simplify_eq/=. reflexivity.
  - replace (2 * S i)%nat with (S (S (2 * i))) in H0 by lia.
    replace (2 * S i + 1)%nat with (S (S (2 * i + 1))) in H1 by lia.
    destruct bytes as [| c0 [| c1 rest]]; simplify_eq/=.
    apply IH. exists b0, b1. repeat split; assumption.
Qed.

(** The loop with its indexed stores computes the pairs of the file. *)
Lemma readFileToVector_pairs (fsys : FileSystem) (filename : string)
    (bytes : list byte) :
  open_ifstream fsys filename = Some (regular_file bytes) ->
  readFileToVector fsys filename
  = ([ifstream_ filename], Returned (uint16_pairs bytes)).
Proof.
  intros Hopen.
  destruct (readFileToVector_opened fsys filename bytes Hopen)
    as (result & Hrun & Hlen & Hel).
  rewrite Hrun. do 2 f_equal.
  apply list_eq. intros i.
  destruct (Nat.lt_ge_cases i (List.length bytes / 2)) as [Hi | Hi].
  - destruct (Hel i Hi) as (v & Hv & Helem & _).
    rewrite Hv. symmetry. apply uint16_pairs_lookup. exact Helem.
  - rewrite !lookup_ge_None_2; [reflexivity | |].
    + rewrite (uint16_pairs_length (List.length bytes)) by lia. exact Hi.
    + rewrite Hlen. exact Hi.
Qed.

Lemma uint16_pairs_app (bytes1 bytes2 : list byte) :
  Nat.even (List.length bytes1) = true ->
  uint16_pairs (bytes1 ++ bytes2) = uint16_pairs bytes1 ++ uint16_pairs bytes2.
Proof.
  remember (List.length bytes1) as n eqn:Hn.
  revert bytes1 Hn.
  induction n as [n IH] using lt_wf_ind. intros bytes1 Hn Heven.
  destruct bytes1 as [| b0 [| b1 rest]].
  - reflexivity.
  - subst n. discriminate Heven.
  - cbn [app uint16_pairs]. f_equal.
    apply (IH (List.length rest)).
    + subst n. cbn. lia.
    + reflexivity.
    + subst n. exact Heven.
Qed.

Lemma byte_val_of_Z (z : Z) : 0 <= z <= 255 -> byte_val (byte_of_Z z) = z.
Proof.
  intros Hz. unfold byte_val, byte_of_Z.
  destruct (Byte.of_N (Z.to_N z)) as [b |] eqn:Hb.
  - apply Byte.to_of_N in Hb. rewrite Hb. lia.
  - apply Byte.of_N_None_iff in Hb. lia.
Qed.

Lemma byte_val_inj (b c : byte) : byte_val b = byte_val c -> b = c.
Proof.
  unfold byte_val. intros H. apply N2Z.inj in H.
  pose proof (Byte.of_to_N b) as Hb. rewrite H, Byte.of_to_N in Hb.
  congruence.
Qed.

Lemma pack_uint16_even (ids : list Z) :
  Nat.even (List.length (pack_uint16 ids)) = true.
Proof. induction ids as [| v ids IH]; [reflexivity | exact IH]. Qed.

Lemma uint16_pairs_pack (ids : list Z) :
  Forall (fun v => 0 <= v <= 65535) ids ->
  uint16_pairs (pack_uint16 ids) = ids.
Proof.
  induction 1 as [| v ids Hv _ IH]; [reflexivity |].
  cbn [pack_uint16 uint16_pairs]. rewrite IH.
  rewrite !byte_val_of_Z.
  - f_equal. pose proof (Z.div_mod v 256 ltac:(lia)). lia.
  - split; [apply Z.div_pos; lia | ].
    apply Z.lt_succ_r. apply Z.div_lt_upper_bound; lia.
  - pose proof (Z.mod_pos_bound v 256 ltac:(lia)). lia.
Qed.

(** X4.  Reading is compatible with concatenation: when a first file has
    an even number of bytes, the ids of the file made of its bytes followed
    by the bytes of a second file are the ids of the first followed by the
    ids of the second. *)
Theorem readFileToVector_append (fsys : FileSystem) (a b c : string)
    (bytes1 bytes2 : list byte) :
  open_ifstream fsys a = Some (regular_file bytes1) ->
  open_ifstream fsys b = Some (regular_file bytes2) ->
  open_ifstream fsys c = Some (regular_file (bytes1 ++ bytes2)) ->
  Nat.even (List.length bytes1) = true ->
  exists ids1 ids2 : list Z,
    outcome (readFileToVector fsys a) = Returned ids1 /\
    outcome (readFileToVector fsys b) = Returned ids2 /\
    outcome (readFileToVector fsys c) = Returned (ids1 ++ ids2).
Proof.
  intros Ha Hb Hc Heven.
  exists (uint16_pairs bytes1), (uint16_pairs bytes2).
  rewrite (readFileToVector_pairs fsys a bytes1 Ha),
    (readFileToVector_pairs fsys b bytes2 Hb),
    (readFileToVector_pairs fsys c _ Hc).
  cbn [outcome snd]. rewrite (uint16_pairs_app bytes1 bytes2 Heven).
  repeat split.
Qed.

(** X5.  Round trip.  A file that holds the little-endian packing of a
    sequence of ids in 0..65535, followed by at most one more byte, is read
    back as exactly that sequence. *)
Theorem readFileToVector_pack (fsys : FileSystem) (filename : string)
    (ids : list Z) (extra : list byte) :
  Forall (fun v => 0 <= v <= 65535) ids ->
  (List.length extra <= 1)%nat ->
  open_ifstream fsys filename
  = Some (regular_file (pack_uint16 ids ++ extra)) ->
  readFileToVector fsys filename = ([ifstream_ filename], Returned ids).
Proof.
  intros Hids Hextra Hopen.
  rewrite (readFileToVector_pairs fsys filename _ Hopen).
  rewrite (uint16_pairs_app _ extra (pack_uint16_even ids)).
  rewrite (uint16_pairs_pack ids Hids).
  destruct extra as [| e [| e' extra]]; cbn in Hextra; try lia;
    cbn [uint16_pairs]; rewrite app_nil_r; reflexivity.
Qed.

Lemma uint16_pairs_inj (n : nat) :
  forall bytes1 bytes2 : list byte,
    (List.length bytes1 <= n)%nat ->
    List.length bytes1 = List.length bytes2 ->
    Nat.even (List.length bytes1) = true ->
    uint16_pairs bytes1 = uint16_pairs bytes2 ->
    bytes1 = bytes2.
Proof.
  induction n as [| n IH]; intros bytes1 bytes2 Hn Hlen Heven Hpairs.
  - destruct bytes1; [| cbn in Hn; lia].
    destruct bytes2; [reflexivity | discriminate Hlen].
  - destruct bytes1 as [| b0 [| b1 rest1]];
      destruct bytes2 as [| c0 [| c1 rest2]]; try discriminate;
      try reflexivity.
    cbn [uint16_pairs] in Hpairs. injection Hpairs as Hv Hrest.
    pose proof (byte_val_range b0). pose proof (byte_val_range b1).
    pose proof (byte_val_range c0). pose proof (byte_val_range c1).
    assert (Hlo : byte_val b0 = byte_val c0) by lia.
    assert (Hhi : byte_val b1 = byte_val c1) by lia.
    apply byte_val_inj in Hlo. apply byte_val_inj in Hhi. subst c0 c1.
    do 2 f_equal. apply IH; cbn in *; try lia; assumption.
Qed.

(** X6.  The reader loses nothing of a file of even length: two files of
    the same even length that are read as the same ids hold the same
    bytes. *)
Theorem readFileToVector_injective (fsys : FileSystem) (a b : string)
    (bytes1 bytes2 : list byte) :
  open_ifstream fsys a = Some (regular_file bytes1) ->
  open_ifstream fsys b = Some (regular_file bytes2) ->
  List.length bytes1 = List.length bytes2 ->
  Nat.even (List.length bytes1) = true ->
  outcome (readFileToVector fsys a) = outcome (readFileToVector fsys b) ->
  bytes1 = bytes2.
Proof.
  intros Ha Hb Hlen Heven.
  rewrite (readFileToVector_pairs fsys a bytes1 Ha),
    (readFileToVector_pairs fsys b bytes2 Hb).
  cbn [outcome snd]. intros Heq. injection Heq as Heq.
  exact (uint16_pairs_inj (List.length bytes1) bytes1 bytes2
           (Nat.le_refl _) Hlen Heven Heq).
Qed.

(** ** How the reader ends on every path *)

Lemma read_short (bytes : list byte) (p : nat) :
  (List.length bytes < p + 2)%nat ->
  read sizeof_uint16_t {| buf := bytes; gpos := p |} = None.
Proof.
  intros Hlen. unfold read, sizeof_uint16_t. cbn [buf gpos].
  rewrite length_take, length_drop.
  destruct (Nat.eqb_spec (Nat.min 2 (List.length bytes - p)) 2) as [H | H];
    [lia | reflexivity].
Qed.

(** A loop that is asked for more pairs than the stream delivers stops at
    the first short read. *)
Lemma read_elements_short (bytes : list byte) (k : nat) :
  forall (i : nat) (result : list Z),
    (2 * i <= List.length bytes)%nat ->
    (List.length bytes < 2 * (i + k))%nat ->
    read_elements k i {| buf := bytes; gpos := (2 * i)%nat |} result
    = ([], Aborted indeterminate_value).
Proof.
  induction k as [| k IH]; intros i result Hlo Hhi; [lia |].
  cbn [read_elements].
  destruct (Nat.le_gt_cases (2 * i + 2) (List.length bytes)) as [Hfit | Hfit].
  - destruct (lookup_lt_is_Some_2 bytes (2 * i)%nat) as [b0 Hb0]; [lia |].
    destruct (lookup_lt_is_Some_2 bytes (S (2 * i))%nat) as [b1 Hb1]; [lia |].
    rewrite (read_two bytes (2 * i) b0 b1 Hb0 Hb1), uint16_of_bytes_val.
    replace (2 * i + 2)%nat with (2 * S i)%nat by lia.
    apply IH; lia.
  - rewrite read_short by lia. reflexivity.
Qed.

(** A loop that is asked for no more pairs than the stream delivers
    returns the first pairs. *)
Lemma read_elements_take (bytes : list byte) (n : nat) :
  (2 * n <= List.length bytes)%nat ->
  read_elements n 0 {| buf := bytes; gpos := 0 |} (replicate n 0)
  = ([], Returned (take n (uint16_pairs bytes))).
Proof.
  intros Hn.
  destruct (read_elements_inv bytes n 0 (replicate n 0))
    as (result & Hrun & Hlen & _ & Hfill).
  { lia. }
  { rewrite length_replicate. reflexivity. }
  change (2 * 0)%nat with 0%nat in Hrun. rewrite Hrun. do 2 f_equal.
  rewrite length_replicate in Hlen.
  apply list_eq. intros j.
  destruct (Nat.lt_ge_cases j n) as [Hj | Hj].
  - destruct (Hfill j) as (v & Hv & Hel); [lia |].
    rewrite Hv, lookup_take_lt by exact Hj.
    symmetry. apply uint16_pairs_lookup. exact Hel.
  - rewrite lookup_take_ge by exact Hj.
    apply lookup_ge_None_2. lia.
Qed.

(** The reader stops exactly when [reader_fault] says so, and otherwise
    returns the ids of the file. *)
Lemma readFileToVector_outcome (fsys : FileSystem) (filename : string) :
  outcome (readFileToVector fsys filename)
  = match reader_fault fsys filename with
    | Some d => Aborted d
    | None => Returned (ids_of_file fsys filename)
    end.
Proof.
  unfold reader_fault, ids_of_file.
  destruct (open_ifstream fsys filename)
    as [[bytes | end_pos allocates bytes] |] eqn:Hopen.
  - rewrite (readFileToVector_pairs fsys filename bytes Hopen). reflexivity.
  - unfold readFileToVector. rewrite Hopen, outcome_bind.
    cbn [emit outcome snd]. fold (reported_count end_pos).
    destruct (vector_max_size <? to_size_t (numElements_of end_pos));
      [reflexivity |].
    destruct allocates; cbn [negb]; [| reflexivity].
    destruct (Nat.ltb_spec (List.length bytes) (2 * reported_count end_pos))
      as [Hshort | Hfit].
    + rewrite (read_elements_short bytes (reported_count end_pos) 0);
        [reflexivity | lia | lia].
    + rewrite (read_elements_take bytes (reported_count end_pos) Hfit).
      reflexivity.
  - rewrite (readFileToVector_unopenable fsys filename Hopen). reflexivity.
Qed.

Lemma readFileToVector_returned (fsys : FileSystem) (filename : string)
    (ids : list Z) :
  outcome (readFileToVector fsys filename) = Returned ids ->
  reader_fault fsys filename = None /\ ids = ids_of_file fsys filename.
Proof.
  rewrite readFileToVector_outcome.
  destruct (reader_fault fsys filename); [discriminate |].
  intros H. injection H as <-. auto.
Qed.


(** The reader on the paths that are not regular files that memory can
    hold. *)
Example reader_on_other_paths :
  readFileToVector Packed.packed_fs "dir"
  = ([ifstream_ "dir"], Aborted length_error) /\
  readFileToVector Packed.packed_fs "fifo"
  = ([ifstream_ "fifo"], Aborted length_error) /\
  readFileToVector Packed.packed_fs "huge.bin"
  = ([ifstream_ "huge.bin"], Aborted bad_alloc) /\
  readFileToVector Packed.packed_fs "zero"
  = ([ifstream_ "zero"], Returned []) /\
  numElements_of LONG_MAX = 2 ^ 62 - 1 /\
  numElements_of (-1) = 2 ^ 63 - 1.
Proof. repeat split; vm_compute; reflexivity. Qed.

(** ** How a run can end *)



Ltac guarded_returned := left; eexists; eexists; split; [reflexivity |];
                         split; [reflexivity |]; eauto.
Ltac guarded_aborted := right; eexists; eexists; split; [reflexivity |];
                        split; reflexivity.

Lemma dispatch_guarded (w : World) (sp : Processor (model w)) (c : Closures) :
  outcome (dispatch w sp) = Returned c ->
  (forall g, fst c = Some g -> guarded_closure g) /\
  (forall g, snd c = Some g -> guarded_closure g).
Proof.
  intros Hret. pose proof (dispatch_returned_closures w sp c Hret) as Hc.
  destruct (String.eqb (FLAGS_input_format (flags w)) "map");
    destruct Hc as [Hnone Hsome]; split; intros g Hg;
    try congruence; rewrite Hsome in Hg; injection Hg as <-; intros x.
  - destruct (String.eqb (FLAGS_output_format (flags w)) "string").
    + rewrite process_map_string_run.
      destruct (Decode_ids (model w) sp x);
        [guarded_returned | guarded_aborted].
    + rewrite process_map_proto_run.
      destruct (Decode_ids_spt (model w) sp x) as [[] |];
        [guarded_returned | guarded_aborted].
  - destruct (String.eqb (FLAGS_input_format (flags w)) "piece");
      destruct (String.eqb (FLAGS_output_format (flags w)) "string").
    + rewrite process_piece_string_run.
      destruct (Decode_pieces (model w) sp x);
        [guarded_returned | guarded_aborted].
    + rewrite process_piece_proto_run.
      destruct (Decode_pieces_spt (model w) sp x) as [[] |];
        [guarded_returned | guarded_aborted].
    + rewrite process_id_string_run.
      destruct (Decode_ids (model w) sp (ToIds x));
        [guarded_returned | guarded_aborted].
    + rewrite process_id_proto_run.
      destruct (Decode_ids_spt (model w) sp (ToIds x)) as [[] |];
        [guarded_returned | guarded_aborted].
Qed.






(** ** Order of the calls, and what the run reads of its arguments *)

Lemma startup_returned_inv (w : World) (sp : Processor (model w)) :
  outcome (startup w) = Returned sp ->
  FLAGS_model (flags w) <> EmptyString /\
  is_Some (Load (model w) (sp_new (model w)) (FLAGS_model (flags w))) /\
  NewWritableFile (fs w) (FLAGS_output (flags w)) = true.
Proof.
  unfold startup.
  destruct (empty (FLAGS_model (flags w))) eqn:Hm; run_M; [discriminate |].
  destruct (Load (model w) (sp_new (model w)) (FLAGS_model (flags w)))
    as [sp0 |]; run_M; [| discriminate].
  destruct (SetDecodeExtraOptions (model w) sp0 (FLAGS_extra_options (flags w)))
    as [sp1 |]; run_M; [| discriminate].
  destruct (NewWritableFile (fs w) (FLAGS_output (flags w))); run_M;
    [| discriminate].
  intros _. apply empty_false_iff in Hm. repeat split; eauto.
Qed.

(** X2.  Nothing is processed before the start has passed.  A run that
    performs any call other than the three calls of the start (opening or
    reading an input, writing the error message of the reader, decoding,
    writing a line) has a non-empty model path, loaded the model, opened
    the output successfully and has known formats, and those three calls
    come first, in the order load, options, output. *)
Theorem startup_precedes_processing (w : World) (e : Event) :
  In e (trace (main w)) ->
  is_startup_event e = false ->
  FLAGS_model (flags w) <> EmptyString /\
  is_Some (Load (model w) (sp_new (model w)) (FLAGS_model (flags w))) /\
  NewWritableFile (fs w) (FLAGS_output (flags w)) = true /\
  known_formats w = true /\
  exists t, trace (main w)
            = [Load_ (FLAGS_model (flags w));
               SetDecodeExtraOptions_ (FLAGS_extra_options (flags w));
               NewWritableFile_ (FLAGS_output (flags w))] ++ t /\
            In e t.
Proof.
  intros Hin He.
  destruct (main_trace_In w e Hin) as [Hs | (sp & c & Hst & Hc & Hb)].
  { unfold startup_events in Hs. cbn in Hs.
    destruct Hs as [<- | [<- | [<- | []]]]; discriminate He. }
  destruct (startup_returned_inv w sp Hst) as (Hm & Hl & Ho).
  pose proof (dispatch_returned_known w sp c Hc) as Hk.
  destruct (dispatch_returned w sp c Hc) as [Hd _].
  repeat (split; [assumption |]).
  exists (trace (batch w c)).
  rewrite (main_known_formats w sp c Hst Hd). cbn [trace fst].
  split; [reflexivity | exact Hb].
Qed.

Lemma rest_args_of_positional (fl : Flags) (args1 args2 : list string)
    (m : Model) (fsys : FileSystem) :
  FLAGS_input fl <> EmptyString \/ tail args1 = tail args2 ->
  rest_args {| flags := fl; argv := args1; model := m; fs := fsys |}
  = rest_args {| flags := fl; argv := args2; model := m; fs := fsys |}.
Proof.
  intros H. unfold rest_args. cbn [flags argv].
  destruct (empty (FLAGS_input fl)) eqn:Hin; [| reflexivity].
  destruct H as [H | H].
  - apply empty_iff in Hin. contradiction.
  - rewrite !push_argv_positional, H. reflexivity.
Qed.

(** X3.  The run reads its argument vector only through the positional
    arguments, and not at all when the input flag is set: two runs that
    differ only in [argv] perform the same calls and end alike when the
    input flag is non-empty, or when their arguments after the program
    name are the same. *)
Theorem main_reads_positional_only (fl : Flags) (args1 args2 : list string)
    (m : Model) (fsys : FileSystem) :
  FLAGS_input fl <> EmptyString \/ tail args1 = tail args2 ->
  main {| flags := fl; argv := args1; model := m; fs := fsys |}
  = main {| flags := fl; argv := args2; model := m; fs := fsys |}.
Proof.
  intros H. pose proof (rest_args_of_positional fl args1 args2 m fsys H) as Hr.
  unfold main.
  change (startup {| flags := fl; argv := args2; model := m; fs := fsys |})
    with (startup {| flags := fl; argv := args1; model := m; fs := fsys |}).
  apply bind_ext. intros sp _.
  change (dispatch {| flags := fl; argv := args2; model := m; fs := fsys |} sp)
    with (dispatch {| flags := fl; argv := args1; model := m; fs := fsys |} sp).
  apply bind_ext. intros [p pi] _.
  unfold batch. cbn [flags]. rewrite Hr. reflexivity.
Qed.

(** ** Runs that complete *)


(** A file whose reader does not stop is handed to the closure as its
    ids. *)
Lemma map_file_ids (w : World) (g : list Z -> M unit) (filename : string) :
  reader_fault (fs w) filename = None ->
  map_file w (Some g) filename
  = (trace (readFileToVector (fs w) filename)
     ++ trace (g (ids_of_file (fs w) filename)),
     outcome (g (ids_of_file (fs w) filename))).
Proof.
  intros Hok. rewrite map_file_cases, readFileToVector_outcome, Hok.
  reflexivity.
Qed.








(** ** What a completed run has written *)

Lemma written_lines_app (t1 t2 : list Event) :
  written_lines (t1 ++ t2) = written_lines t1 ++ written_lines t2.
Proof. unfold written_lines. apply flat_map_app. Qed.

(** In a loop that returned, the lines written are those of the bodies, in
    order; [items x] is what body [x] accounts for. *)
Lemma for_each_written {A B} (body : A -> M unit) (items : A -> list B)
    (dec : B -> option string) (l : list A) (u : unit) :
  outcome (for_each l body) = Returned u ->
  (forall x, In x l -> outcome (body x) = Returned tt ->
     map Some (written_lines (trace (body x))) = map dec (items x)) ->
  map Some (written_lines (trace (for_each l body)))
  = map dec (flat_map items l).
Proof.
  intros Hret Hbody.
  pose proof (for_each_returned_inv body l u Hret) as Hall.
  rewrite (for_each_returned body l Hall). cbn [trace fst].
  clear Hret. induction l as [| x l IH]; [reflexivity |].
  cbn [flat_map]. rewrite written_lines_app, !map_app.
  rewrite (Hbody x) by (try apply Hall; left; reflexivity).
  rewrite IH; [reflexivity | |].
  - intros y Hy. apply Hbody. right. exact Hy.
  - intros y Hy. apply Hall. right. exact Hy.
Qed.

Lemma flat_map_singleton_id {A} (l : list A) :
  flat_map (fun x => [x]) l = l.
Proof. induction l as [| x l IH]; cbn; congruence. Qed.

Lemma startup_events_written (w : World) :
  written_lines (startup_events w) = [].
Proof. reflexivity. Qed.


(** X8.  The output of a completed text run.  With the output format
    "string" and the input format "piece" or "id", a run that returns 0 has
    written exactly one line per line of its input sources, in reading
    order (files in argument order, lines in file order), and each written
    line is the text that the model decodes that input line to. *)
Theorem text_run_output (w : World) (sp : Processor (model w)) :
  outcome (startup w) = Returned sp ->
  outcome (main w) = Returned 0 ->
  FLAGS_output_format (flags w) = "string" ->
  FLAGS_input_format (flags w) = "piece" \/
  FLAGS_input_format (flags w) = "id" ->
  map Some (written_lines (trace (main w)))
  = map (decode_line w sp) (input_lines w).
Proof.
  intros Hst Hret Hs Hfmt.
  assert (Hm : FLAGS_input_format (flags w) <> "map").
  { destruct Hfmt as [-> | ->]; discriminate. }
  destruct (main_returned_inv w 0 Hret) as (sp' & c & Hst' & Hc & Hb & Hrun).
  rewrite Hst in Hst'. injection Hst' as <-.
  rewrite Hrun. cbn [trace fst].
  rewrite written_lines_app, startup_events_written. cbn [app].
  pose proof (dispatch_returned_closures w sp c Hc) as Hcl.
  destruct (String.eqb_spec (FLAGS_input_format (flags w)) "map");
    [contradiction |].
  destruct Hcl as [_ Hg]. rewrite Hs in Hg.
  cbn [String.eqb Ascii.eqb Bool.eqb] in Hg.
  rewrite (batch_text w c Hm), Hg in Hb |- *.
  apply (for_each_written _ (lines_of (fs w)) (decode_line w sp) _ tt Hb).
  intros f _ Hf. revert Hf. rewrite text_file_run. unfold lines_of.
  destruct (NewReadableFile (fs w) f) as [lines |]; [| discriminate].
  cbn [trace outcome fst snd]. intros Hlines.
  change (NewReadableFile_ f :: ?t) with ([NewReadableFile_ f] ++ t).
  rewrite written_lines_app. cbn [written_lines flat_map app].
  rewrite <- (flat_map_singleton_id lines) at 2.
  apply (for_each_written _ (fun x => [x]) (decode_line w sp) _ tt Hlines).
  intros line _. rewrite text_line_run. cbn [trace outcome fst snd].
  unfold decode_line.
  destruct (String.eqb (FLAGS_input_format (flags w)) "piece").
  - rewrite process_piece_string_run. cbn [map].
    destruct (Decode_pieces (model w) sp _); [reflexivity | discriminate].
  - rewrite process_id_string_run. cbn [map].
    destruct (Decode_ids (model w) sp _); [reflexivity | discriminate].
Qed.


(** ** Several input sources *)

Lemma for_each_app {A} (body : A -> M unit) (l1 l2 : list A) :
  for_each (l1 ++ l2) body = (for_each l1 body ;; for_each l2 body).
Proof.
  induction l1 as [| x l1 IH]; cbn [app for_each].
  - destruct (for_each l2 body) as [t o]. reflexivity.
  - rewrite IH. destruct (body x) as [t [[] | d]]; [| reflexivity].
    unfold mbind, M_bind, bind.
    destruct (for_each l1 body) as [t1 [[] | d1]].
    + destruct (for_each l2 body) as [t2 o2]. rewrite app_assoc. reflexivity.
    + reflexivity.
Qed.

Lemma rest_args_positional (fl : Flags) (prog : string) (l : list string)
    (m : Model) (fsys : FileSystem) :
  FLAGS_input fl = EmptyString -> l <> [] ->
  rest_args {| flags := fl; argv := prog :: l; model := m; fs := fsys |} = l.
Proof.
  intros Hin Hl. unfold rest_args. cbn [flags argv].
  rewrite Hin. cbn [empty]. rewrite push_argv_positional. cbn [tail].
  destruct l; [contradiction | reflexivity].
Qed.

(** The body of the batch loop for the closures [c]. *)
Lemma batch_positional (fl : Flags) (prog : string) (l : list string)
    (m : Model) (fsys : FileSystem) (c : Closures) :
  FLAGS_input fl = EmptyString -> l <> [] ->
  batch {| flags := fl; argv := prog :: l; model := m; fs := fsys |} c
  = for_each l
      (if String.eqb (FLAGS_input_format fl) "map"
       then map_file {| flags := fl; argv := []; model := m; fs := fsys |}
              (snd c)
       else text_file {| flags := fl; argv := []; model := m; fs := fsys |}
              (fst c)).
Proof.
  intros Hin Hl. unfold batch. destruct c as [p pi]. cbn [flags fst snd].
  rewrite (rest_args_positional fl prog l m fsys Hin Hl).
  destruct (String.eqb (FLAGS_input_format fl) "map"); reflexivity.
Qed.

(** X10.  Input sources compose.  With positional arguments, when the run
    on a first list of files completes, the run on that list followed by a
    second list writes the lines of the first run followed by the lines of
    the run on the second list alone, and ends as that second run ends. *)
Theorem main_files_compose (fl : Flags) (prog : string)
    (l1 l2 : list string) (m : Model) (fsys : FileSystem) :
  FLAGS_input fl = EmptyString -> l1 <> [] -> l2 <> [] ->
  outcome (main {| flags := fl; argv := prog :: l1; model := m; fs := fsys |})
  = Returned 0 ->
  written_lines
    (trace (main {| flags := fl; argv := prog :: (l1 ++ l2);
                    model := m; fs := fsys |}))
  = written_lines
      (trace (main {| flags := fl; argv := prog :: l1;
                      model := m; fs := fsys |}))
    ++ written_lines
         (trace (main {| flags := fl; argv := prog :: l2;
                         model := m; fs := fsys |})) /\
  outcome (main {| flags := fl; argv := prog :: (l1 ++ l2);
                   model := m; fs := fsys |})
  = outcome (main {| flags := fl; argv := prog :: l2;
                     model := m; fs := fsys |}).
Proof.
  intros Hin Hl1 Hl2 Hret.
  assert (Hl12 : l1 ++ l2 <> []).
  { destruct l1; [contradiction | discriminate]. }
  destruct (main_returned_inv _ 0 Hret) as (sp & c & Hst & Hc & Hb & Hrun1).
  destruct (dispatch_returned _ sp c Hc) as [Hd _].
  rewrite Hrun1.
  rewrite (main_known_formats
             {| flags := fl; argv := prog :: (l1 ++ l2); model := m; fs := fsys |}
             sp c Hst Hd).
  rewrite (main_known_formats
             {| flags := fl; argv := prog :: l2; model := m; fs := fsys |}
             sp c Hst Hd).
  rewrite (batch_positional fl prog l1 m fsys c Hin Hl1) in Hb |- *.
  rewrite (batch_positional fl prog (l1 ++ l2) m fsys c Hin Hl12).
  rewrite (batch_positional fl prog l2 m fsys c Hin Hl2).
  rewrite for_each_app. cbn [trace outcome fst snd].
  rewrite trace_bind, outcome_bind, Hb.
  rewrite !written_lines_app. cbn [startup_events written_lines flat_map app].
  split; reflexivity.
Qed.

(** ** Output and input keep step in every run *)

Lemma in_step_bind {A B} (p : Event -> bool) (m : M A) (k : A -> M B) :
  in_step p m -> (forall a, in_step p (k a)) -> in_step p (m ≫= k).
Proof.
  intros [Hm Hmret] Hk. unfold in_step.
  rewrite trace_bind, outcome_bind, !count_app.
  destruct (outcome m) as [a | d].
  - destruct (Hk a) as [Hka Hkret]. specialize (Hmret a eq_refl).
    split; [lia |]. intros b Hb. specialize (Hkret b Hb). lia.
  - change (count is_WriteLine []) with 0%nat. change (count p []) with 0%nat.
    split; [lia | discriminate].
Qed.

Lemma in_step_for_each {A} (p : Event -> bool) (body : A -> M unit)
    (l : list A) :
  (forall x, in_step p (body x)) -> in_step p (for_each l body).
Proof.
  intros Hbody. induction l as [| x l IH]; cbn [for_each].
  - split; [cbn; lia | reflexivity].
  - apply in_step_bind; [apply Hbody | intros _; exact IH].
Qed.

(** A quiet prefix: events that are neither written lines nor input
    units. *)
Lemma in_step_prefix {A} (p : Event -> bool) (t : list Event) (m : M A) :
  count is_WriteLine t = 0%nat -> count p t = 0%nat ->
  in_step p m -> in_step p (t ++ trace m, outcome m).
Proof.
  intros Hw Hp [Hm Hret]. unfold in_step. cbn [trace outcome fst snd].
  rewrite !count_app, Hw, Hp. auto.
Qed.

(** One input unit handed to a "string" closure: the unit is counted
    first, the line is written when the [Decode] call succeeded. *)
Lemma in_step_unit {A} (p : Event -> bool) (t : list Event)
    (g : A -> M unit) (x : A) :
  count is_WriteLine t = 0%nat -> count p t = 1%nat ->
  (forall ev, is_Decode ev = true -> p ev = false) ->
  (forall text, p (WriteLine_ text) = false) ->
  guarded_closure g -> string_closure g ->
  in_step p (t ++ trace (g x), outcome (g x)).
Proof.
  intros Hw Hp Hdec Hwl Hg Hs. unfold in_step. cbn [trace outcome fst snd].
  rewrite !count_app, Hw, Hp.
  destruct (Hs x) as [_ Hone].
  destruct (Hg x) as [(ev & tl & Hrun & Hev & Htl) | (ev & d & Hrun & Hev & _)];
    rewrite Hrun in Hone |- *; cbn [trace outcome fst snd] in *.
  - specialize (Hone eq_refl).
    assert (Hpc : count p (ev :: tl) = 0%nat).
    { apply count_none. intros e [<- | He]; [apply Hdec, Hev |].
      destruct Htl as [-> | [text ->]]; [destruct He |].
      destruct He as [<- | []]. apply Hwl. }
    rewrite Hone, Hpc. split; [lia | intros _ _; lia].
  - assert (Hwc : count is_WriteLine [ev] = 0%nat).
    { apply count_none. intros e [<- | []].
      destruct ev; try discriminate Hev; reflexivity. }
    assert (Hpc : count p [ev] = 0%nat).
    { apply count_none. intros e [<- | []]. apply Hdec, Hev. }
    rewrite Hwc, Hpc. split; [lia | discriminate].
Qed.

Lemma in_step_batch (w : World) (sp : Processor (model w)) (c : Closures) :
  outcome (dispatch w sp) = Returned c ->
  FLAGS_output_format (flags w) = "string" ->
  in_step (if String.eqb (FLAGS_input_format (flags w)) "map"
           then is_ifstream else is_ReadLine)
          (batch w c).
Proof.
  intros Hc Hs.
  destruct (dispatch_guarded w sp c Hc) as [Hfst Hsnd].
  destruct (dispatch_returned w sp c Hc)
    as [_ [(Hm & _ & g & Hg & Hfmt) | (_ & Hm & _ & g & Hg & Hfmt)]].
  - rewrite (batch_map w c Hm), Hg, Hm. cbn [String.eqb Ascii.eqb Bool.eqb].
    apply in_step_for_each. intros f.
    rewrite map_file_cases, readFileToVector_trace.
    assert (Hw : count is_WriteLine
                   (ifstream_ f
                    :: match open_ifstream (fs w) f with
                       | None =>
                           [cerr_ ("Error: Unable to open the file: " ++ f)%string]
                       | Some _ => []
                       end) = 0%nat).
    { destruct (open_ifstream (fs w) f); reflexivity. }
    assert (Hp : count is_ifstream
                   (ifstream_ f
                    :: match open_ifstream (fs w) f with
                       | None =>
                           [cerr_ ("Error: Unable to open the file: " ++ f)%string]
                       | Some _ => []
                       end) = 1%nat).
    { destruct (open_ifstream (fs w) f); reflexivity. }
    destruct (outcome (readFileToVector (fs w) f)) as [ids | d].
    2: { split; cbn [trace outcome fst snd];
           [rewrite Hw, Hp; lia | discriminate]. }
    apply in_step_unit.
    + exact Hw.
    + exact Hp.
    + intros ev Hev. destruct ev; try discriminate Hev; reflexivity.
    + reflexivity.
    + exact (Hsnd g Hg).
    + exact (closure_of_format_string w g Hs Hfmt).
  - rewrite (batch_text w c Hm), Hg.
    destruct (String.eqb_spec (FLAGS_input_format (flags w)) "map");
      [contradiction |].
    apply in_step_for_each. intros f. rewrite text_file_run.
    destruct (NewReadableFile (fs w) f) as [lines |].
    + change (NewReadableFile_ f :: ?t) with ([NewReadableFile_ f] ++ t).
      apply in_step_prefix; [reflexivity | reflexivity |].
      apply in_step_for_each. intros line. rewrite text_line_run.
      change (ReadLine_ line :: ?t) with ([ReadLine_ line] ++ t).
      apply in_step_unit.
      * reflexivity.
      * reflexivity.
      * intros ev Hev. destruct ev; try discriminate Hev; reflexivity.
      * reflexivity.
      * exact (Hfst g Hg).
      * exact (closure_of_format_string w g Hs Hfmt).
    + split; [cbn; lia | discriminate].
Qed.

(** X11.  With the output format "string", in every run, also one that
    ends fatally, the written lines keep step with the input units (the
    lines read for "piece" and "id", the files handed to the reader for
    "map"): the run never writes more lines than it took units, it is at
    most one unit ahead of its output (the unit whose [Decode] call
    failed), and it is level when it returns. *)
Theorem written_lines_in_step (w : World) :
  FLAGS_output_format (flags w) = "string" ->
  in_step (if String.eqb (FLAGS_input_format (flags w)) "map"
           then is_ifstream else is_ReadLine)
          (main w).
Proof.
  intros Hs.
  set (p := if String.eqb (FLAGS_input_format (flags w)) "map"
            then is_ifstream else is_ReadLine).
  assert (Hquiet : forall t, (forall e, In e t -> In e (startup_events w)) ->
                             count is_WriteLine t = 0%nat /\ count p t = 0%nat).
  { intros t Ht. split; apply count_none; intros e He;
      specialize (Ht e He); unfold startup_events in Ht; cbn in Ht;
      destruct Ht as [<- | [<- | [<- | []]]]; try reflexivity;
      subst p; destruct (String.eqb _ "map"); reflexivity. }
  destruct (outcome (startup w)) as [sp | d] eqn:Hst.
  2: { rewrite (main_startup_aborted w d Hst).
       destruct (Hquiet (trace (startup w)) (startup_trace_In w)) as [Hw Hp].
       split; cbn [trace outcome fst snd];
         [rewrite Hw, Hp; lia | discriminate]. }
  destruct (Hquiet (startup_events w) (fun e H => H)) as [Hw Hp].
  destruct (known_formats w) eqn:Hfmt.
  2: { rewrite (main_unknown_format w sp Hst Hfmt).
       split; cbn [trace outcome fst snd];
         [rewrite Hw, Hp; lia | discriminate]. }
  destruct (dispatch_known w sp Hfmt) as (c & Hd & _).
  rewrite (main_known_formats w sp c Hst Hd).
  pose proof (in_step_batch w sp c (f_equal outcome Hd) Hs) as [Hb Hbret].
  fold p in Hb, Hbret.
  split; cbn [trace outcome fst snd]; rewrite !count_app, Hw, Hp.
  - exact Hb.
  - destruct (outcome (batch w c)) as [u | d]; [| discriminate].
    intros _ _. exact (Hbret u eq_refl).
Qed.

(** ** Ids written in decimal *)

Lemma atoi_decimal (ds : string) :
  ds <> EmptyString -> all_digits ds = true -> decimal_value ds <= INT_MAX ->
  atoi ds = decimal_value ds /\
  atoi (String "-" ds) = - decimal_value ds /\
  atoi (String "+" ds) = decimal_value ds.
Proof.
  intros Hne Hds Hmax.
  pose proof (decimal_value_nonneg ds Hds) as Hpos.
  pose proof (digits_value_decimal ds Hds 0) as Hval.
  rewrite Z.mul_0_l, Z.add_0_l in Hval.
  unfold INT_MAX in Hmax.
  assert (Hmin : Z.min LONG_MAX (decimal_value ds) = decimal_value ds).
  { unfold LONG_MAX. lia. }
  assert (Hmaxn : Z.max LONG_MIN (- decimal_value ds) = - decimal_value ds).
  { unfold LONG_MIN. lia. }
  split; [| split].
  - destruct ds as [| c ds]; [congruence |].
    pose proof Hds as Hc. cbn [all_digits] in Hc.
    apply andb_true_iff in Hc. destruct Hc as [Hc _].
    destruct (isdigit_not_sign c Hc) as [Hm Hp].
    unfold atoi, strtol. cbn [skip_space].
    rewrite (isdigit_not_space c Hc), Hm, Hp, Hval, Hmin.
    apply long_to_int_small. unfold INT_MIN, INT_MAX. lia.
  - unfold atoi, strtol. cbn [skip_space isspace].
    change (isspace "-") with false. cbn iota.
    change (Ascii.eqb "-" "-") with true. cbn iota.
    rewrite Hval, Hmaxn.
    apply long_to_int_small. unfold INT_MIN, INT_MAX. lia.
  - unfold atoi, strtol. cbn [skip_space].
    change (isspace "+") with false. cbn iota.
    change (Ascii.eqb "+" "-") with false.
    change (Ascii.eqb "+" "+") with true. cbn iota.
    rewrite Hval, Hmin.
    apply long_to_int_small. unfold INT_MIN, INT_MAX. lia.
Qed.

(** X12.  Ids written in decimal are converted to their values.  When
    every token is a non-empty string of digits whose value fits an [int],
    [ToIds] gives the positional decimal values of the tokens, in order;
    with a minus sign in front of each token it gives the negated
    values. *)
Theorem ToIds_decimal (pieces : list string) :
  Forall (fun s => s <> EmptyString /\ all_digits s = true /\
                   decimal_value s <= INT_MAX) pieces ->
  ToIds pieces = map decimal_value pieces /\
  ToIds (map (String "-"%char) pieces)
  = map (fun s => - decimal_value s) pieces.
Proof.
  induction 1 as [| s pieces (Hne & Hds & Hmax) _ [IH1 IH2]].
  - split; reflexivity.
  - destruct (atoi_decimal s Hne Hds Hmax) as (Hpos & Hneg & _).
    cbn [ToIds map]. rewrite Hpos, Hneg, IH1, IH2. split; reflexivity.
Qed.

(** ** Where the decoded ids come from *)






(** ** The further facts at work on the small world *)


Lemma startup_precedes_processing_witness :
  In (WriteLine_ "Hello_world!")
     (trace (main (Demo.world "" "piece" "string" ["pieces.txt"]))) /\
  known_formats (Demo.world "" "piece" "string" ["pieces.txt"]) = true /\
  NewWritableFile Demo.demo_fs EmptyString = true.
Proof.
  assert (Hin : In (WriteLine_ "Hello_world!")
                   (trace (main (Demo.world "" "piece" "string"
                                   ["pieces.txt"])))).
  { vm_compute. repeat (first [left; reflexivity | right]). }
  split; [exact Hin |].
  destruct (startup_precedes_processing
              (Demo.world "" "piece" "string" ["pieces.txt"])
              (WriteLine_ "Hello_world!") Hin eq_refl)
    as (_ & _ & Hout & Hfmt & _).
  split; [exact Hfmt | exact Hout].
Defined.

Lemma main_reads_positional_only_witness :
  main {| flags := Demo.demo_flags "ids.txt" "id" "string";
          argv := ["spm_decode"; "pieces.txt"];
          model := Demo.demo_model; fs := Demo.demo_fs |}
  = main {| flags := Demo.demo_flags "ids.txt" "id" "string";
            argv := ["./spm_decode"; "nope"; "ids.bin"];
            model := Demo.demo_model; fs := Demo.demo_fs |}.
Proof.
  apply (main_reads_positional_only (Demo.demo_flags "ids.txt" "id" "string")).
  left. discriminate.
Defined.

Lemma readFileToVector_append_witness :
  exists ids1 ids2 : list Z,
    outcome (readFileToVector Packed.packed_fs "a.bin") = Returned ids1 /\
    outcome (readFileToVector Packed.packed_fs "b.bin") = Returned ids2 /\
    outcome (readFileToVector Packed.packed_fs "ab.bin")
    = Returned (ids1 ++ ids2).
Proof.
  apply (readFileToVector_append Packed.packed_fs "a.bin" "b.bin" "ab.bin"
           [x01; x00] [x02; x00; x03]); reflexivity.
Defined.

Lemma readFileToVector_pack_witness :
  readFileToVector Demo.demo_fs "small.bin"
  = ([ifstream_ "small.bin"], Returned [1; 3]).
Proof.
  apply (readFileToVector_pack Demo.demo_fs "small.bin" [1; 3] [x02]).
  - repeat constructor; lia.
  - cbn. lia.
  - reflexivity.
Defined.

Lemma readFileToVector_injective_witness :
  outcome (readFileToVector Packed.packed_fs "a.bin")
  = outcome (readFileToVector Packed.packed_fs "copy.bin") /\
  open_ifstream Packed.packed_fs "a.bin"
  = open_ifstream Packed.packed_fs "copy.bin".
Proof.
  split; [reflexivity |].
  change (Some (regular_file [x01; x00]) = Some (regular_file [x01; x00])).
  apply (f_equal (fun bytes => Some (regular_file bytes))).
  apply (readFileToVector_injective Packed.packed_fs "a.bin" "copy.bin");
    reflexivity.
Defined.


Lemma text_run_output_witness :
  map Some
    (written_lines
       (trace (main (Demo.world "" "piece" "string" ["pieces.txt"]))))
  = [Some "Hello_world!"; Some EmptyString].
Proof.
  apply (text_run_output (Demo.world "" "piece" "string" ["pieces.txt"])
           Demo.vocab eq_refl eq_refl eq_refl).
  left. reflexivity.
Defined.


Lemma main_files_compose_witness :
  written_lines
    (trace (main {| flags := Demo.demo_flags "" "piece" "string";
                    argv := "spm_decode" :: (["pieces.txt"] ++ ["ids.txt"]);
                    model := Demo.demo_model; fs := Demo.demo_fs |}))
  = written_lines
      (trace (main {| flags := Demo.demo_flags "" "piece" "string";
                      argv := "spm_decode" :: ["pieces.txt"];
                      model := Demo.demo_model; fs := Demo.demo_fs |}))
    ++ written_lines
         (trace (main {| flags := Demo.demo_flags "" "piece" "string";
                         argv := "spm_decode" :: ["ids.txt"];
                         model := Demo.demo_model; fs := Demo.demo_fs |})) /\
  outcome (main {| flags := Demo.demo_flags "" "piece" "string";
                   argv := "spm_decode" :: (["pieces.txt"] ++ ["ids.txt"]);
                   model := Demo.demo_model; fs := Demo.demo_fs |})
  = outcome (main {| flags := Demo.demo_flags "" "piece" "string";
                     argv := "spm_decode" :: ["ids.txt"];
                     model := Demo.demo_model; fs := Demo.demo_fs |}).
Proof.
  apply (main_files_compose (Demo.demo_flags "" "piece" "string")
           "spm_decode" ["pieces.txt"] ["ids.txt"]
           Demo.demo_model Demo.demo_fs).
  - reflexivity.
  - discriminate.
  - discriminate.
  - reflexivity.
Defined.

Lemma written_lines_in_step_witness :
  in_step is_ReadLine (main (Demo.world "" "piece" "string" ["ids.txt"])).
Proof.
  apply (written_lines_in_step (Demo.world "" "piece" "string" ["ids.txt"])).
  reflexivity.
Defined.

Lemma ToIds_decimal_witness :
  ToIds ["15"; "42"; "007"] = [15; 42; 7] /\
  ToIds (map (String "-"%char) ["15"; "42"; "007"]) = [-15; -42; -7].
Proof.
  apply (ToIds_decimal ["15"; "42"; "007"]).
  repeat constructor; try discriminate; apply Z.leb_le; reflexivity.
Defined.

